(** * WrapCapPDF: the PDF extraction wrapper [CapPDFHandler]

    A shallow embedding of [src/WrapCapPDF/pdf_extractor.py].

    Python strings are sequences of Unicode code points: a character is
    an [N] and a string a [list N].  The string methods and the fragment
    of the [re] module that the source calls are written out first, then
    the effects (file system, PDF engine, logger, the cached [BytesIO]),
    then the methods of [CapPDFHandler] in the order of the source. *)

From Stdlib Require Import List NArith ZArith Bool Lia String Ascii.
Import ListNotations.

Set Implicit Arguments.

(** ** Python [str] *)

Module PyStr.

Definition char := N.
Definition str := list char.

(** A source literal, character by character. *)
Definition lit (s : string) : str :=
  map N_of_ascii (list_ascii_of_string s).

Definition NL : char := 10%N.

(** [str.isspace] for one character, which is also what [str.strip()]
    removes and what [\s] matches in a [str] pattern. *)
Definition isspace (c : char) : bool :=
  ((9 <=? c) && (c <=? 13) || (28 <=? c) && (c <=? 32)
   || (c =? 133) || (c =? 160) || (c =? 5760)
   || (8192 <=? c) && (c <=? 8202)
   || (c =? 8232) || (c =? 8233) || (c =? 8239) || (c =? 8287)
   || (c =? 12288))%N.

Definition mem (cs : str) (c : char) : bool := existsb (N.eqb c) cs.

Fixpoint eqb (a b : str) : bool :=
  match a, b with
  | [], [] => true
  | x :: a', y :: b' => N.eqb x y && eqb a' b'
  | _, _ => false
  end.

(** [s.startswith(p)] *)
Fixpoint startswith (p s : str) : bool :=
  match p, s with
  | [], _ => true
  | x :: p', y :: s' => N.eqb x y && startswith p' s'
  | _ :: _, [] => false
  end.

(** The first index [>= i] at which [sub] occurs, [s] being the text
    from index [i] on. *)
Fixpoint find_from (sub s : str) (i : nat) : option nat :=
  if startswith sub s then Some i
  else match s with
       | [] => None
       | _ :: s' => find_from sub s' (S i)
       end.

(** A slice bound as Python clamps it: negative counts from the end. *)
Definition clamp (n i : Z) : Z :=
  if (i <? 0)%Z then Z.max 0 (i + n) else Z.min i n.

(** [s.find(sub, start)]: the lowest index at or after [start], or -1. *)
Definition find (s sub : str) (start : Z) : Z :=
  let n := Z.of_nat (List.length s) in
  let b := if (start <? 0)%Z then Z.max 0 (start + n) else start in
  if (n <? b)%Z then (-1)%Z
  else match find_from sub (skipn (Z.to_nat b) s) (Z.to_nat b) with
       | Some i => Z.of_nat i
       | None => (-1)%Z
       end.

(** [s[a:b]] *)
Definition slice (s : str) (a b : Z) : str :=
  let n := Z.of_nat (List.length s) in
  let a' := clamp n a in
  let b' := clamp n b in
  firstn (Z.to_nat (b' - a')) (skipn (Z.to_nat a') s).

Fixpoint lstrip_by (p : char -> bool) (s : str) : str :=
  match s with
  | c :: s' => if p c then lstrip_by p s' else s
  | [] => []
  end.

Definition rstrip_by (p : char -> bool) (s : str) : str :=
  rev (lstrip_by p (rev s)).

Definition strip_by (p : char -> bool) (s : str) : str :=
  rstrip_by p (lstrip_by p s).

(** [s.strip()] *)
Definition strip (s : str) : str := strip_by isspace s.

(** [s.strip(chars)] *)
Definition strip_chars (chars s : str) : str := strip_by (mem chars) s.

(** [s.split(sep)] for a separator of one character. *)
Fixpoint split (sep : char) (s : str) : list str :=
  match s with
  | [] => [[]]
  | c :: s' =>
      if N.eqb c sep then [] :: split sep s'
      else match split sep s' with
           | l :: ls => (c :: l) :: ls
           | [] => [[c]]
           end
  end.

(** [sep.join(parts)] *)
Fixpoint join (sep : str) (parts : list str) : str :=
  match parts with
  | [] => []
  | [p] => p
  | p :: ps => p ++ sep ++ join sep ps
  end.

(** Truth value of an optional string argument: [None] and the empty
    string are both false. *)
Definition truthy (o : option str) : bool :=
  match o with
  | Some (_ :: _) => true
  | _ => false
  end.

End PyStr.

Import PyStr.

(** ** The fragment of [re] used by the source

    Literals, the classes [.], [\s] and [[^c]], greedy and lazy
    repetition of one class, concatenation, one capture group and the
    anchors [^] and [$].  The matcher backtracks in the order of
    Python's engine: a greedy repetition tries the longest run first, a
    lazy one the shortest. *)

Module Re.

Inductive cls :=
| Lit (c : char)       (* a literal character, as in \* or ! *)
| Dot                  (* .      any character but a newline *)
| Space                (* \s *)
| NotChr (c : char).   (* [^c] *)

Definition cls_match (x : cls) (c : char) : bool :=
  match x with
  | Lit d => N.eqb c d
  | Dot => negb (N.eqb c NL)
  | Space => isspace c
  | NotChr d => negb (N.eqb c d)
  end.

Inductive re :=
| Eps
| One (x : cls)
| Rep (greedy : bool) (lo : nat) (x : cls)   (* x* x+ x*? x+? *)
| Cat (r1 r2 : re)
| Grp (n : nat) (r : re)
| Bol                                        (* ^ *)
| Eol.                                       (* $ *)

(** The matcher's state: the absolute position, the text still to be
    read and the groups captured so far (the last capture of a group
    first). *)
Record mstate := MState {
  pos : nat;
  rest : str;
  groups : list (nat * str)
}.

Definition cont := mstate -> option mstate.

Definition orelse (a : option mstate) (b : option mstate) : option mstate :=
  match a with
  | Some r => Some r
  | None => b
  end.

Fixpoint rep (greedy : bool) (x : cls) (lo : nat) (k : cont)
    (p : nat) (g : list (nat * str)) (s : str) {struct s} : option mstate :=
  let more :=
    match s with
    | c :: s' => if cls_match x c then rep greedy x (Nat.pred lo) k (S p) g s'
                 else None
    | [] => None
    end in
  match lo with
  | S _ => more
  | O => if greedy then orelse more (k (MState p s g))
         else orelse (k (MState p s g)) more
  end.

Fixpoint m (r : re) (k : cont) (st : mstate) : option mstate :=
  match r with
  | Eps => k st
  | One x =>
      match rest st with
      | c :: s' => if cls_match x c then k (MState (S (pos st)) s' (groups st))
                   else None
      | [] => None
      end
  | Rep greedy lo x => rep greedy x lo k (pos st) (groups st) (rest st)
  | Cat r1 r2 => m r1 (m r2 k) st
  | Grp n r =>
      m r (fun st' =>
             k (MState (pos st') (rest st')
                  ((n, firstn (pos st' - pos st) (rest st)) :: groups st')))
        st
  | Bol => if Nat.eqb (pos st) 0 then k st else None
  | Eol =>
      match rest st with
      | [] => k st
      | [c] => if N.eqb c NL then k st else None
      | _ => None
      end
  end.

(** One attempt at position [p], the text from [p] on being [s]; with
    [must_advance] an empty match is refused. *)
Definition match_at (r : re) (must_advance : bool) (p : nat) (s : str)
  : option mstate :=
  m r (fun st' => if must_advance && Nat.eqb (pos st') p then None
                  else Some st')
    (MState p s []).

(** [re.match(r, s)]: a match at index 0 or nothing. *)
Definition re_match (r : re) (s : str) : option mstate :=
  match_at r false 0 s.

(** Replacement templates: text and group references such as [\1]. *)
Inductive titem :=
| TChr (c : char)
| TRef (n : nat).

Fixpoint group (n : nat) (g : list (nat * str)) : str :=
  match g with
  | [] => []
  | (i, w) :: g' => if Nat.eqb i n then w else group n g'
  end.

Fixpoint expand (t : list titem) (g : list (nat * str)) : str :=
  match t with
  | [] => []
  | TChr c :: t' => c :: expand t' g
  | TRef n :: t' => group n g ++ expand t' g
  end.

(** [re.sub(r, t, s)], scanning [s] from position [p]; [skip] counts the
    characters still covered by the match found last.  After an empty
    match the same position is tried once more for a match that is not
    empty, as the engine does since Python 3.7. *)
Fixpoint sub_go (r : re) (t : list titem) (p skip : nat) (s : str) : str :=
  match s with
  | [] =>
      match match_at r false p [] with
      | Some st => expand t (groups st)
      | None => []
      end
  | c :: s' =>
      match skip with
      | S n => sub_go r t (S p) n s'
      | O =>
          match match_at r false p s with
          | None => c :: sub_go r t (S p) 0 s'
          | Some st =>
              if Nat.eqb (pos st) p then
                expand t (groups st) ++
                match match_at r true p s with
                | Some st2 =>
                    expand t (groups st2) ++ sub_go r t (S p) (pos st2 - p - 1) s'
                | None => c :: sub_go r t (S p) 0 s'
                end
              else expand t (groups st) ++ sub_go r t (S p) (pos st - p - 1) s'
          end
      end
  end.

Definition sub (r : re) (t : list titem) (s : str) : str := sub_go r t 0 0 s.

(** A word of literals. *)
Fixpoint word (w : str) : re :=
  match w with
  | [] => Eps
  | [c] => One (Lit c)
  | c :: w' => Cat (One (Lit c)) (word w')
  end.

Definition text (w : str) : list titem := map TChr w.

End Re.

Import Re.

(** ** Exceptions, the file system, the PDF engine and the logger *)

Module Eff.

(** Every exception modelled here is an instance of [Exception], so an
    [except Exception] clause catches it; [exn_msg] is [str(e)].
    What is no instance of [Exception] ([KeyboardInterrupt],
    [SystemExit], [GeneratorExit]) passes through such a clause and is
    not modelled: the engine, [open] and [write] are taken to raise
    instances of [Exception] only. *)
Inductive exn_kind :=
| FileNotFoundError
| ValueError
| NotADirectoryError
| TypeError
| UnicodeEncodeError
| PermissionError
| AttributeError
| OtherException.

Record exn := Exn { exn_kind_of : exn_kind; exn_msg : str }.

Inductive level := INFO | WARNING | ERROR.

(** What [os.stat(p)] and [open(p, "rb")] find at a path. *)
Inductive node :=
| Missing                      (* os.stat(p) fails: nothing can be reached at p *)
| File (data : list N)         (* a regular file that can be read, and its bytes *)
| Unreadable                   (* a regular file that open(p, "rb") refuses *)
| Dir.

(** An [io.BytesIO] object. *)
Record bytesio := BytesIO {
  bio_data : list N;
  bio_pos : nat;
  bio_closed : bool
}.

Inductive io :=
| IoStat (p : str)             (* exists / is_file / is_dir *)
| IoOpenRead (p : str)
| IoReadAll (p : str)
| IoOpenWrite (p : str)
| IoWrite (p : str)
| IoEngine (p : str).          (* the PDF engine opens and reads p *)

(** What the program can change. *)
Record state := State {
  fs : str -> node;
  heap : list bytesio;         (* BytesIO objects, addressed by index *)
  log : list (level * str);    (* records of the module logger, oldest first *)
  trace : list io              (* I/O performed, oldest first *)
}.

(** What the surroundings answer: the PDF engine and the faults of the
    operating system. *)
Record env := Env {
  to_markdown : str -> exn + str;
      (* to_markdown(path, write_images=False) *)
  pymupdf_open : str -> exn + list (exn + str);
      (* pymupdf.open(path), then page.get_text("text") page by page *)
  open_read_fault : str -> exn;
      (* what open(p, "rb") raises when p is not a regular file that can
         be read *)
  open_write_fault : str -> option exn;
      (* what open(p, "w") raises, if it does *)
  encode_fault : str -> exn
      (* what write raises for a text that UTF-8 cannot encode *)
}.

Definition M (A : Type) : Type := state -> (exn + A) * state.

Definition ret {A} (a : A) : M A := fun s => (inr a, s).

Definition raise {A} (e : exn) : M A := fun s => (inl e, s).

Definition bind {A B} (c : M A) (k : A -> M B) : M B :=
  fun s => match c s with
           | (inr a, s') => k a s'
           | (inl e, s') => (inl e, s')
           end.

(** [try: c  except Exception as e: h e] *)
Definition catch {A} (c : M A) (h : exn -> M A) : M A :=
  fun s => match c s with
           | (inr a, s') => (inr a, s')
           | (inl e, s') => h e s'
           end.

Definition emit (ev : io) : M unit :=
  fun s => (inr tt, State (fs s) (heap s) (log s) (trace s ++ [ev])).

Definition logger (l : level) (msg : str) : M unit :=
  fun s => (inr tt, State (fs s) (heap s) (log s ++ [(l, msg)]) (trace s)).

Definition stat (p : str) : M node :=
  fun s => (inr (fs s p), State (fs s) (heap s) (log s) (trace s ++ [IoStat p])).

Definition set_file (p : str) (data : list N) : M unit :=
  fun s => (inr tt,
            State (fun q => if PyStr.eqb q p then File data else fs s q)
                  (heap s) (log s) (trace s)).

Definition alloc (b : bytesio) : M nat :=
  fun s => (inr (List.length (heap s)),
            State (fs s) (heap s ++ [b]) (log s) (trace s)).

Fixpoint set_nth {A} (i : nat) (x : A) (l : list A) : list A :=
  match l, i with
  | [], _ => []
  | _ :: l', O => x :: l'
  | y :: l', S i' => y :: set_nth i' x l'
  end.

Definition load (r : nat) : M bytesio :=
  fun s => (inr (nth r (heap s) (BytesIO [] 0 true)), s).

Definition store (r : nat) (b : bytesio) : M unit :=
  fun s => (inr tt, State (fs s) (set_nth r b (heap s)) (log s) (trace s)).

End Eff.

Import Eff.

Declare Scope py_scope.
Delimit Scope py_scope with py.
Notation "x <- c ;; k" := (bind c (fun x => k))
  (at level 61, c at next level, right associativity) : py_scope.
Notation "c ;;; k" := (bind c (fun _ => k))
  (at level 61, right associativity) : py_scope.
Open Scope py_scope.

(** ** Library calls with effects *)

Section Library.

Variable E : env.

(** [os.path.exists(p)]: true for a file and for a directory, false
    whenever [os.stat] fails. *)
Definition os_path_exists (p : str) : M bool :=
  n <- stat p ;;
  ret (match n with Missing => false | _ => true end).

(** [Path.stat] as [Path.exists], [Path.is_file] and [Path.is_dir] call
    it: where [os.stat] fails, pathlib takes the failure for absence only
    if its errno is ENOENT, ENOTDIR, EBADF or ELOOP, and raises the
    [OSError] again otherwise. [stat_fault p] is that other [OSError]
    (a [PermissionError], say), if there is one. *)
Definition path_stat (stat_fault : str -> option exn) (p : str) : M node :=
  n <- stat p ;;
  match n, stat_fault p with
  | Missing, Some e => raise e
  | _, _ => ret n
  end.

(** [Path.exists], [Path.is_file], [Path.is_dir] *)
Definition path_exists (stat_fault : str -> option exn) (p : str) : M bool :=
  n <- path_stat stat_fault p ;;
  ret (match n with Missing => false | _ => true end).

Definition path_is_file (stat_fault : str -> option exn) (p : str) : M bool :=
  n <- path_stat stat_fault p ;;
  ret (match n with File _ | Unreadable => true | _ => false end).

Definition path_is_dir (stat_fault : str -> option exn) (p : str) : M bool :=
  n <- path_stat stat_fault p ;;
  ret (match n with Dir => true | _ => false end).

(** [with open(p, "rb") as file: file.read()] *)
Definition read_binary (p : str) : M (list N) :=
  emit (IoOpenRead p) ;;;
  n <- (fun s => (inr (fs s p), s)) ;;
  match n with
  | File data => emit (IoReadAll p) ;;; ret data
  | _ => raise (open_read_fault E p)
  end.

(** UTF-8; lone surrogates and values past U+10FFFF have no encoding. *)
Definition utf8_char (c : N) : option (list N) :=
  (if c <? 128 then Some [c]
   else if c <? 2048 then Some [192 + c / 64; 128 + c mod 64]
   else if (55296 <=? c) && (c <=? 57343) then None
   else if c <? 65536 then
     Some [224 + c / 4096; 128 + (c / 64) mod 64; 128 + c mod 64]
   else if c <? 1114112 then
     Some [240 + c / 262144; 128 + (c / 4096) mod 64;
           128 + (c / 64) mod 64; 128 + c mod 64]
   else None)%N.

Fixpoint utf8 (s : str) : option (list N) :=
  match s with
  | [] => Some []
  | c :: s' =>
      match utf8_char c, utf8 s' with
      | Some b, Some bs => Some (b ++ bs)
      | _, _ => None
      end
  end.

(** [with open(p, "w", encoding="utf-8") as f: f.write(content)]:
    opening creates or empties the file before anything is written. *)
Definition write_text (p : str) (content : str) : M unit :=
  emit (IoOpenWrite p) ;;;
  match open_write_fault E p with
  | Some e => raise e
  | None =>
      set_file p [] ;;;
      match utf8 content with
      | None => raise (encode_fault E content)
      | Some bytes => emit (IoWrite p) ;;; set_file p bytes
      end
  end.

(** [b.seek(0)] on the object at [r] *)
Definition bio_seek0 (r : nat) : M unit :=
  b <- load r ;;
  if bio_closed b
  then raise (Exn ValueError (lit "I/O operation on closed file."))
  else store r (BytesIO (bio_data b) 0 false).

(** [to_markdown(p, write_images=False)] *)
Definition engine_markdown (p : str) : M str :=
  emit (IoEngine p) ;;;
  match to_markdown E p with
  | inl e => raise e
  | inr md => ret md
  end.

Fixpoint pages_text (pages : list (exn + str)) : M (list str) :=
  match pages with
  | [] => ret []
  | inl e :: _ => raise e
  | inr t :: ps => ts <- pages_text ps ;; ret (t :: ts)
  end.

(** [with pymupdf.open(p) as doc: [page.get_text("text") for page in doc]] *)
Definition engine_text (p : str) : M (list str) :=
  emit (IoEngine p) ;;;
  match pymupdf_open E p with
  | inl e => raise e
  | inr pages => pages_text pages
  end.

End Library.

(** ** [class CapPDFHandler] *)

Record handler := Handler {
  pdf_path : str;
  memory_file : option nat     (* None, or the cached BytesIO object *)
}.

(** The argument of a marker that is true. *)
Definition the (o : option str) : str :=
  match o with
  | Some s => s
  | None => []
  end.

(** What [extract_text_content] returns. *)
Inductive value :=
| VStr (s : str)
| VFalse.

(** The patterns of the source. *)

(* r"!\[.*?\]\(.*?\)" *)
Definition image_re : re :=
  Cat (word (lit "![")) (Cat (Rep false 0 Dot)
    (Cat (word (lit "](")) (Cat (Rep false 0 Dot) (word (lit ")"))))).

(* r"\*\*(.*?)\*\*"  and  r"**\1**" *)
Definition bold_re : re :=
  Cat (word (lit "**")) (Cat (Grp 1 (Rep false 0 Dot)) (word (lit "**"))).
Definition bold_tpl : list titem := text (lit "**") ++ [TRef 1] ++ text (lit "**").

(* r"__(.*?)__"  and  r"__\1__" *)
Definition underline_re : re :=
  Cat (word (lit "__")) (Cat (Grp 1 (Rep false 0 Dot)) (word (lit "__"))).
Definition underline_tpl : list titem :=
  text (lit "__") ++ [TRef 1] ++ text (lit "__").

(* r"\*(.*?)\*"  and  r"*\1*" *)
Definition italic_re : re :=
  Cat (word (lit "*")) (Cat (Grp 1 (Rep false 0 Dot)) (word (lit "*"))).
Definition italic_tpl : list titem := text (lit "*") ++ [TRef 1] ++ text (lit "*").

(* r'^\s*\*\*[^*]+\*\*\s*$' *)
Definition heading_re : re :=
  Cat Bol (Cat (Rep true 0 Space) (Cat (word (lit "**"))
    (Cat (Rep true 1 (NotChr 42%N)) (Cat (word (lit "**"))
      (Cat (Rep true 0 Space) Eol))))).

Definition _remove_images_from_markdown_content (markdown_content : str) : str :=
  sub image_re [] markdown_content.

(** The three substitutions that open [_format_markdown_content]. *)
Definition keep_styles (markdown_content : str) : str :=
  let markdown_content := sub bold_re bold_tpl markdown_content in
  let markdown_content := sub underline_re underline_tpl markdown_content in
  sub italic_re italic_tpl markdown_content.

(** One turn of the loop over [range(len(lines))]. *)
Definition promote_at (lines : list str) (i : nat) : list str :=
  let line := nth i lines [] in
  match re_match heading_re line with
  | Some _ => set_nth i (lit "## " ++ strip_chars (lit " *") line) lines
  | None => lines
  end.

Definition promote_headings (lines : list str) : list str :=
  fold_left promote_at (seq 0 (List.length lines)) lines.

Definition _format_markdown_content (markdown_content : str) : str :=
  let markdown_content := keep_styles markdown_content in
  let lines := split NL markdown_content in
  join [NL] (promote_headings lines).

Section Methods.

Variable E : env.

(** The [OSError] that [Path.exists], [Path.is_file] and [Path.is_dir]
    pass on for a path, see [path_stat]. *)
Variable stat_fault : str -> option exn.

Definition __init__ (resource_path : str) : M handler :=
  found <- os_path_exists resource_path ;;
  if negb found
  then raise (Exn FileNotFoundError (lit "File not found: " ++ resource_path))
  else ret (Handler resource_path None).

(** The body of the [try] of [extract_markdown_content]. *)
Definition extract_markdown_try (self : handler) (cleaned : bool)
    (start end_ : option str) : M str :=
  markdown_content <- engine_markdown E (pdf_path self) ;;
  let markdown_content :=
    if cleaned then _remove_images_from_markdown_content markdown_content
    else markdown_content in
  let markdown_content := _format_markdown_content markdown_content in
  if truthy start || truthy end_ then
    let start_idx :=
      if truthy start then find markdown_content (the start) 0 else 0%Z in
    let end_idx :=
      if truthy end_ then find markdown_content (the end_) start_idx
      else Z.of_nat (List.length markdown_content) in
    if (start_idx =? -1)%Z || (truthy end_ && (end_idx =? -1)%Z) then
      logger WARNING
        (lit "Specified start or end markers not found. Returning full content.") ;;;
      ret (strip markdown_content)
    else ret (strip (slice markdown_content start_idx end_idx))
  else ret markdown_content.

Definition extract_markdown_content (self : handler) (cleaned : bool)
    (start end_ : option str) : M str :=
  catch (extract_markdown_try self cleaned start end_)
    (fun e =>
       logger ERROR (lit "An error occurred while extracting content: " ++ exn_msg e) ;;;
       ret (lit "An error occurred while extracting content: " ++ exn_msg e)).

(** The body of the [try] of [extract_text_content]. *)
Definition extract_text_try (self : handler) (start end_ : option str) : M value :=
  pages <- engine_text E (pdf_path self) ;;
  let text_content := join [NL; NL] pages in
  if truthy start || truthy end_ then
    let start_idx :=
      if truthy start then find text_content (the start) 0 else 0%Z in
    let end_idx :=
      if truthy end_ then find text_content (the end_) start_idx
      else Z.of_nat (List.length text_content) in
    if (start_idx =? -1)%Z || (truthy end_ && (end_idx =? -1)%Z) then
      logger WARNING
        (lit "Specified start or end markers not found. Returning full content.") ;;;
      ret (VStr (strip text_content))
    else ret (VStr (strip (slice text_content start_idx end_idx)))
  else ret (VStr text_content).

Definition extract_text_content (self : handler) (start end_ : option str) : M value :=
  catch (extract_text_try self start end_)
    (fun e =>
       logger ERROR (lit "An error occurred while extracting text content: " ++ exn_msg e) ;;;
       ret VFalse).

Definition get_memory_file (self : handler) : M (handler * nat) :=
  r <- match memory_file self with
       | None =>
           data <- read_binary E (pdf_path self) ;;
           alloc (BytesIO data 0 false)
       | Some r => ret r
       end ;;
  bio_seek0 r ;;;
  ret (Handler (pdf_path self) (Some r), r).

Definition save_markdown_to_file (self : handler) (output_path : str)
    (markdown_content : option str) (cleaned : bool)
    (start end_ : option str) : M unit :=
  catch
    (markdown_content <-
       match markdown_content with
       | None => extract_markdown_content self cleaned start end_
       | Some c => ret c
       end ;;
     write_text E output_path markdown_content ;;;
     logger INFO (lit "Markdown file saved successfully: " ++ output_path))
    (fun e => logger ERROR (lit "Failed to save Markdown file: " ++ exn_msg e)).

(** [Path.suffix]: the last dot of the final component and what follows
    it, unless that dot comes first or last in the name. *)
Fixpoint rfind_char (c : char) (s : str) (i : nat) (acc : option nat) : option nat :=
  match s with
  | [] => acc
  | d :: s' => rfind_char c s' (S i) (if N.eqb d c then Some i else acc)
  end.

Definition path_name (p : str) : str :=
  match rfind_char 47%N p 0 None with
  | Some i => skipn (S i) p
  | None => p
  end.

Definition path_suffix (p : str) : str :=
  let name := path_name p in
  match rfind_char 46%N name 0 None with
  | Some i =>
      if Nat.ltb 0 i && Nat.ltb i (List.length name - 1) then skipn i name else []
  | None => []
  end.

(** [str.lower], exact on the letters A to Z; no other character has
    [.], [p], [d] or [f] for its lower case. *)
Definition lower (s : str) : str :=
  map (fun c => if (65 <=? c) && (c <=? 90) then c + 32 else c)%N s.

Definition validate_paths (source destination : str) : M unit :=
  ex <- path_exists stat_fault source ;;
  isf <- (if ex then path_is_file stat_fault source else ret false) ;;
  if negb ex || negb isf then
    raise (Exn FileNotFoundError
             (lit "The source file " ++ source ++ lit " does not exist."))
  else if negb (PyStr.eqb (lower (path_suffix source)) (lit ".pdf")) then
    raise (Exn ValueError (lit "The source file must be a PDF."))
  else
    dex <- path_exists stat_fault destination ;;
    if negb dex then
      raise (Exn NotADirectoryError
               (lit "The destination directory " ++ destination ++ lit " does not exist."))
    else
      isd <- path_is_dir stat_fault destination ;;
      if negb isd then
        raise (Exn NotADirectoryError
                 (lit "The destination path " ++ destination ++ lit " is not a directory."))
      else ret tt.

End Methods.

(** ** The other methods of [CapPDFHandler] *)

Section MoreMethods.

Variable E : env.

(** What [doc.metadata.get("title")] gives inside
    [with pymupdf.open(p) as doc]: an exception from the engine, or the
    value under the key, [None] when there is none. *)
Variable doc_title : str -> exn + option str.

(** The [OSError] that [Path.exists] passes on for a path, see
    [path_stat]. *)
Variable stat_fault : str -> option exn.

(** [self.pdf_path.stem]: the stem of a [Path], the [AttributeError] of
    a [str], which has no such attribute ([__init__] takes either).
    [destination / stem]: the joined path, or the [TypeError] of an
    operand that is no path. [Path.mkdir(parents=True, exist_ok=True)]. *)
Variable path_stem : str -> exn + str.
Variable path_join : str -> str -> exn + str.
Variable mkdir_parents : str -> M unit.

Definition evaluated {A} (r : exn + A) : M A :=
  match r with
  | inl e => raise e
  | inr a => ret a
  end.

Definition engine_title (p : str) : M (option str) :=
  emit (IoEngine p) ;;;
  match doc_title p with
  | inl e => raise e
  | inr title => ret title
  end.

(** [f"{title}"] *)
Definition format_title (title : option str) : str :=
  match title with
  | Some t => t
  | None => lit "None"
  end.

Definition create_output_directory (self : handler) (destination : str) : M str :=
  stem <- evaluated (path_stem (pdf_path self)) ;;
  output_dir <- evaluated (path_join destination stem) ;;
  found <- path_exists stat_fault output_dir ;;
  (if negb found then mkdir_parents output_dir else ret tt) ;;;
  ret output_dir.

Definition get_pdf_title (self : handler) : M (option str) :=
  catch
    (title <- engine_title (pdf_path self) ;;
     logger INFO (lit "PDF Title: " ++ format_title title) ;;;
     ret (if truthy title then title else None))
    (fun e =>
       logger ERROR
         (lit "An error occurred while retrieving the page title: " ++ exn_msg e) ;;;
       ret None).

Definition _get_pdf_generation_options (self : handler) : M unit := ret tt.

(** [with open(p, "w", encoding="utf-8") as f: f.write(v)] for what
    [extract_text_content] may have returned: [write] takes a string
    only. *)
Definition write_value (p : str) (v : value) : M unit :=
  emit (IoOpenWrite p) ;;;
  match open_write_fault E p with
  | Some e => raise e
  | None =>
      set_file p [] ;;;
      match v with
      | VFalse => raise (Exn TypeError (lit "write() argument must be str, not bool"))
      | VStr content =>
          match utf8 content with
          | None => raise (encode_fault E content)
          | Some bytes => emit (IoWrite p) ;;; set_file p bytes
          end
      end
  end.

Definition save_text_to_file (self : handler) (output_path : str)
    (text_content : option value) (start end_ : option str) : M unit :=
  catch
    (text_content <-
       match text_content with
       | None => extract_text_content E self start end_
       | Some c => ret c
       end ;;
     write_value output_path text_content ;;;
     logger INFO (lit "Plain text file saved successfully: " ++ output_path))
    (fun e => logger ERROR (lit "Failed to save plain text file: " ++ exn_msg e)).

Definition save_content (self : handler) (content output_path : str) : M unit :=
  write_text E output_path content ;;;
  logger INFO (lit "File saved to: " ++ output_path).

End MoreMethods.

(** * Vocabulary of the properties *)

(** ** What a pattern matches, declaratively *)

Module ReSpec.

(** [reps x n st st']: [n] characters of class [x] lead from [st] to [st']. *)
Inductive reps (x : cls) : nat -> mstate -> mstate -> Prop :=
| reps_O st : reps x 0 st st
| reps_S n p c s g st' :
    cls_match x c = true ->
    reps x n (MState (S p) s g) st' ->
    reps x (S n) (MState p (c :: s) g) st'.

Inductive matches : re -> mstate -> mstate -> Prop :=
| M_Eps st : matches Eps st st
| M_One x p c s g :
    cls_match x c = true ->
    matches (One x) (MState p (c :: s) g) (MState (S p) s g)
| M_Rep gr lo x n st st' :
    lo <= n -> reps x n st st' -> matches (Rep gr lo x) st st'
| M_Cat r1 r2 st st1 st2 :
    matches r1 st st1 -> matches r2 st1 st2 -> matches (Cat r1 r2) st st2
| M_Grp n r st st' :
    matches r st st' ->
    matches (Grp n r) st
      (MState (pos st') (rest st')
         ((n, firstn (pos st' - pos st) (rest st)) :: groups st'))
| M_Bol st : pos st = 0 -> matches Bol st st
| M_Eol st : rest st = [] \/ rest st = [NL] -> matches Eol st st.

Create HintDb re.
#[export] Hint Constructors reps matches : re.

End ReSpec.

Import ReSpec.

(** ** Occurrences of a marker *)

(** [sub] occurs in [s] at index [i]. *)
Definition occurs_at (s sub : str) (i : nat) : Prop :=
  exists pre post, s = pre ++ sub ++ post /\ List.length pre = i.

Definition occurs (s sub : str) : Prop := exists i, occurs_at s sub i.

(** [i] is the first index at or after [from] at which [sub] occurs. *)
Definition first_at (s sub : str) (from i : nat) : Prop :=
  from <= i /\ occurs_at s sub i /\
  forall j, from <= j < i -> ~ occurs_at s sub j.

(** Decidable forms, for concrete inputs. *)
Definition occursb (s sub : str) : bool :=
  match find_from sub s 0 with
  | Some _ => true
  | None => false
  end.

Definition first_atb (s sub : str) (from i : nat) : bool :=
  Nat.leb from i && Nat.leb i (List.length s) && startswith sub (skipn i s)
  && forallb (fun j => negb (startswith sub (skipn j s))) (seq from (i - from)).

(** ** Runs of the extractions *)

Definition traced (s : state) (ev : io) : state :=
  State (fs s) (heap s) (log s) (trace s ++ [ev]).

Definition logged (s : state) (l : level) (msg : str) : state :=
  State (fs s) (heap s) (log s ++ [(l, msg)]) (trace s).

(** The Markdown on which the markers are searched. *)
Definition processed (cleaned : bool) (md : str) : str :=
  _format_markdown_content
    (if cleaned then _remove_images_from_markdown_content md else md).

(** The plain text on which the markers are searched. *)
Definition joined (pages : list str) : str := join [NL; NL] pages.

(** The selection between markers that both extractions perform. *)
Definition select (content : str) (start end_ : option str) : M str :=
  if truthy start || truthy end_ then
    let start_idx := if truthy start then find content (the start) 0 else 0%Z in
    let end_idx :=
      if truthy end_ then find content (the end_) start_idx
      else Z.of_nat (List.length content) in
    if (start_idx =? -1)%Z || (truthy end_ && (end_idx =? -1)%Z) then
      logger WARNING
        (lit "Specified start or end markers not found. Returning full content.") ;;;
      ret (strip content)
    else ret (strip (slice content start_idx end_idx))
  else ret content.

Definition not_found_warning : str :=
  lit "Specified start or end markers not found. Returning full content.".

(** ** Sample surroundings *)

(** A PDF engine with fixed answers, and a small file system. *)
Definition sample_env (md : exn + str) (doc : exn + list (exn + str)) : env :=
  Env (fun _ => md) (fun _ => doc)
      (fun p => Exn FileNotFoundError p)
      (fun _ => None)
      (fun _ => Exn UnicodeEncodeError []).

Definition sample_fs (p : str) : node :=
  if PyStr.eqb p (lit "/docs/report.pdf") then File [37; 80; 68; 70]%N
  else if PyStr.eqb p (lit "/docs/notes.txt") then File [104; 105]%N
  else if PyStr.eqb p (lit "/docs") then Dir
  else if PyStr.eqb p (lit "/out") then Dir
  else Missing.

Definition sample_state : state := State sample_fs [] [] [].

Definition sample_handler : handler := Handler (lit "/docs/report.pdf") None.

(** ** Failures and path checks *)

(** How the plain-text extraction fails: on opening the document or on
    the text of one of its pages. *)
Definition text_fails (doc : exn + list (exn + str)) (e : exn) : Prop :=
  doc = inl e \/
  exists before after, doc = inr (map inr before ++ inl e :: after).

Definition is_pdf (p : str) : bool :=
  PyStr.eqb (lower (path_suffix p)) (lit ".pdf").

Definition is_file (n : node) : bool :=
  match n with File _ | Unreadable => true | _ => false end.

Definition is_dir (n : node) : bool :=
  match n with Dir => true | _ => false end.

(** The tests of [p] can be carried out: [os.stat] succeeds, or fails in
    a way that pathlib takes for absence. *)
Definition testable (stat_fault : str -> option exn) (s : state) (p : str) : bool :=
  match fs s p, stat_fault p with
  | Missing, Some _ => false
  | _, _ => true
  end.

(** No test ever fails. *)
Definition no_stat_fault (p : str) : option exn := None.

(** The directory [/locked] cannot be searched. *)
Definition locked_stat_fault (p : str) : option exn :=
  if PyStr.eqb p (lit "/locked/report.pdf")
  then Some (Exn PermissionError
               (lit "[Errno 13] Permission denied: '/locked/report.pdf'"))
  else None.

(** A file system whose one file has its extension in capitals. *)
Definition capitals_fs (p : str) : node :=
  if PyStr.eqb p (lit "/docs/REPORT.PDF") then File [37; 80; 68; 70]%N
  else if PyStr.eqb p (lit "/out") then Dir
  else Missing.

(** A file system like [sample_fs], where [/docs/sealed.pdf] cannot be
    opened for reading. *)
Definition sealed_fs (p : str) : node :=
  if PyStr.eqb p (lit "/docs/sealed.pdf") then Unreadable else sample_fs p.

(** ** The extension of a path, read off its text *)

(** The final component of [p], a path as pathlib prints it, is a
    non-empty stem, a dot and the non-empty extension [e]; [e] has no
    dot, and neither has a slash. *)
Definition has_extension (p e : str) : Prop :=
  exists dir stem,
    p = dir ++ stem ++ 46%N :: e /\
    (dir = [] \/ exists d, dir = d ++ [47%N]) /\
    stem <> [] /\ e <> [] /\
    ~ In 47%N stem /\ ~ In 47%N e /\ ~ In 46%N e.

(** The letters p, d, f, each in either case. *)
Definition pdf_word (e : str) : Prop :=
  exists a b c,
    e = [a; b; c] /\
    (a = 112 \/ a = 80)%N /\ (b = 100 \/ b = 68)%N /\ (c = 102 \/ c = 70)%N.

(** The extension of [p] is [.pdf], letter case apart. *)
Definition pdf_named (p : str) : Prop :=
  exists e, has_extension p e /\ pdf_word e.

Definition raises {A} (r : (exn + A) * state) (k : exn_kind) : Prop :=
  exists msg, fst r = inl (Exn k msg).

(** ** The lifetime of the cached buffer *)

(** What happens to one extractor over its lifetime: calls of
    [get_memory_file], and in between the caller's use of the buffer that
    the calls hand out. *)
Inductive op :=
| Get                      (* self.get_memory_file() *)
| CallerRead (n : nat)     (* buf.read(n) *)
| CallerSeek (n : nat)     (* buf.seek(n) *)
| CallerClose.             (* buf.close() *)

Definition caller_use (o : op) (b : bytesio) : bytesio :=
  match o with
  | Get => b
  | CallerRead n =>
      if bio_closed b then b
      else BytesIO (bio_data b)
             (Nat.max (bio_pos b) (Nat.min (bio_pos b + n) (List.length (bio_data b))))
             false
  | CallerSeek n => if bio_closed b then b else BytesIO (bio_data b) n false
  | CallerClose => BytesIO (bio_data b) (bio_pos b) true
  end.

(** A returned buffer as the caller sees it on return: the object and
    its contents at that moment. *)
Definition outcome : Type := exn + (nat * bytesio).

Record run_state := RunState {
  rs_self : handler;
  rs_state : state;
  rs_out : list outcome       (* one entry per call of get_memory_file *)
}.

Definition step (E : env) (rs : run_state) (o : op) : run_state :=
  match o with
  | Get =>
      match get_memory_file E (rs_self rs) (rs_state rs) with
      | (inr (self', r), s') =>
          RunState self' s'
            (rs_out rs ++ [inr (r, nth r (heap s') (BytesIO [] 0 true))])
      | (inl e, s') => RunState (rs_self rs) s' (rs_out rs ++ [inl e])
      end
  | _ =>
      match memory_file (rs_self rs) with
      | Some r =>
          let s := rs_state rs in
          let b := nth r (heap s) (BytesIO [] 0 true) in
          RunState (rs_self rs)
            (State (fs s) (set_nth r (caller_use o b) (heap s)) (log s) (trace s))
            (rs_out rs)
      | None => rs
      end
  end.

Definition run (E : env) (ops : list op) (rs : run_state) : run_state :=
  fold_left (step E) ops rs.

Definition is_close (o : op) : bool :=
  match o with CallerClose => true | _ => false end.

Definition gets (ops : list op) : nat :=
  List.length (filter (fun o => match o with Get => true | _ => false end) ops).

Fixpoint disk_reads (p : str) (tr : list io) : nat :=
  match tr with
  | [] => 0
  | IoReadAll q :: tr' => (if PyStr.eqb q p then 1 else 0) + disk_reads p tr'
  | _ :: tr' => disk_reads p tr'
  end.

(** The states an extractor on a readable file goes through, [outs]
    being the returns so far: before the first call nothing is cached and
    nothing was read; afterwards one object [r] is cached for good, it
    holds the file's bytes and is open, the file was read once, and every
    call returned [r] rewound to 0. *)
Inductive cache_inv (path : str) (data : list N) (reads0 : nat)
  : run_state -> Prop :=
| cache_empty s :
    fs s path = File data ->
    disk_reads path (trace s) = reads0 ->
    cache_inv path data reads0 (RunState (Handler path None) s [])
| cache_filled s r k outs :
    fs s path = File data ->
    disk_reads path (trace s) = S reads0 ->
    r < List.length (heap s) ->
    nth r (heap s) (BytesIO [] 0 true) = BytesIO data k false ->
    Forall (fun o => o = inr (r, BytesIO data 0 false)) outs ->
    cache_inv path data reads0 (RunState (Handler path (Some r)) s outs).

(** ** Saving and heading promotion *)

Definition extraction_error (e : exn) : str :=
  lit "An error occurred while extracting content: " ++ exn_msg e.

(** What the loop does to one line. *)
Definition promote_line (line : str) : str :=
  match re_match heading_re line with
  | Some _ => lit "## " ++ strip_chars (lit " *") line
  | None => line
  end.

(** ** Image references in a text *)

Definition is_some {A} (o : option A) : bool :=
  match o with
  | Some _ => true
  | None => false
  end.

(** [re.search(r, s) is not None], the text from position [p] on being [s]. *)
Fixpoint search_from (r : re) (p : nat) (s : str) : bool :=
  is_some (match_at r false p s) ||
  match s with
  | [] => false
  | _ :: s' => search_from r (S p) s'
  end.

(** The text contains something that the image pattern matches. *)
Definition has_image (s : str) : bool := search_from image_re 0 s.

(** Somewhere an exclamation mark stands directly before a match of the
    image pattern. *)
Fixpoint bang_before_image (p : nat) (s : str) : bool :=
  match s with
  | [] => false
  | c :: s' =>
      N.eqb c 33 && is_some (match_at image_re false (S p) s')
      || bang_before_image (S p) s'
  end.

(** The image pattern read as a scan of one line: a closing parenthesis
    ahead; a "](" with a closing parenthesis ahead of it; "![" and then
    that. *)
Fixpoint has_close (s : str) : bool :=
  match s with
  | [] => false
  | c :: s' => N.eqb c 41 || negb (N.eqb c NL) && has_close s'
  end.

Fixpoint has_mid (s : str) : bool :=
  match s with
  | [] => false
  | c :: s' =>
      N.eqb c 93 && match s' with
                    | d :: s'' => N.eqb d 40 && has_close s''
                    | [] => false
                    end
      || negb (N.eqb c NL) && has_mid s'
  end.

Definition image_here (s : str) : bool :=
  match s with
  | c :: d :: t => N.eqb c 33 && N.eqb d 91 && has_mid t
  | _ => false
  end.

Fixpoint any_image (s : str) : bool :=
  image_here s ||
  match s with
  | [] => false
  | _ :: s' => any_image s'
  end.

Definition accept (adv : bool) (p : nat) : cont :=
  fun st' => if adv && Nat.eqb (pos st') p then None else Some st'.

(** Removal, step by step. *)
Definition clean (p skip : nat) (s : str) : str := sub_go image_re [] p skip s.

Fixpoint bang_image (s : str) : bool :=
  match s with
  | [] => false
  | c :: s' => N.eqb c 33 && image_here s' || bang_image s'
  end.

(** ** Parts of a text *)

(** [out] is a contiguous part of [s]. *)
Definition infix_of (out s : str) : Prop :=
  exists pre post, s = pre ++ out ++ post.

(** [s] neither begins nor ends with whitespace. *)
Definition trimmed (s : str) : Prop :=
  (forall c t, s = c :: t -> isspace c = false) /\
  (forall t c, s = t ++ [c] -> isspace c = false).

(** [s] has no character [c]. *)
Definition lacks (c : char) (s : str) : Prop := ~ In c s.

(** An engine that gives the same text as Markdown and as the only
    page of the document. *)
Definition sample_text_env (content : str) : env :=
  sample_env (inr content) (inr [inr content]).

(** [sub] occurs in [s] at or after [from], decided. *)
Definition occurs_fromb (s sub : str) (from : nat) : bool :=
  match find_from sub (skipn from s) from with
  | Some _ => true
  | None => false
  end.

(** Between [s] and [s'] the engine read [p] once and nothing else
    touched the files or the buffers. *)
Definition only_engine_read (s s' : state) (p : str) : Prop :=
  fs s' = fs s /\ heap s' = heap s /\ trace s' = trace s ++ [IoEngine p].

(** ** Patterns that do not look at the position or past the line *)

(** No [^]: the pattern matches alike at every position. *)
Fixpoint bol_free (r : re) : bool :=
  match r with
  | Bol => false
  | Cat r1 r2 => bol_free r1 && bol_free r2
  | Grp _ r' => bol_free r'
  | _ => true
  end.

(** No class takes a newline, and neither [$] nor a group occurs: the
    pattern matches within one line. *)
Fixpoint line_local (r : re) : bool :=
  match r with
  | Eps => true
  | One x => negb (cls_match x NL)
  | Rep _ _ x => negb (cls_match x NL)
  | Cat r1 r2 => line_local r1 && line_local r2
  | Grp _ _ => false
  | Bol => true
  | Eol => false
  end.

(** The same state [d] characters further on. *)
Definition shift (d : nat) (st : mstate) : mstate :=
  MState (pos st + d) (rest st) (groups st).

(** The same state with a newline and [y] after the text. *)
Definition extend (y : str) (st : mstate) : mstate :=
  MState (pos st) (rest st ++ NL :: y) (groups st).

(** * Properties *)

(** ** The matcher against a declarative reading of the patterns *)

Lemma orelse_some (a b : option mstate) res :
  orelse a b = Some res -> a = Some res \/ (a = None /\ b = Some res).
Proof. destruct a; simpl; intros H; [left | right]; auto. Qed.

Lemma rep_sound gr x k res :
  forall s lo p g,
    rep gr x lo k p g s = Some res ->
    exists n st', lo <= n /\ reps x n (MState p s g) st' /\ k st' = Some res.
Proof.
  induction s as [|c s IH]; intros lo p g H.
  - destruct lo; simpl in H; [|discriminate].
    exists 0, (MState p [] g).
    assert (Hk : k (MState p [] g) = Some res).
    { destruct gr; simpl in H; auto.
      destruct (k (MState p [] g)); simpl in H; auto. }
    repeat split; auto with re.
  - assert (Hmore : (if cls_match x c then rep gr x (Nat.pred lo) k (S p) g s
                     else None) = Some res ->
                    exists n st', lo <= n /\ reps x n (MState p (c :: s) g) st'
                                  /\ k st' = Some res).
    { destruct (cls_match x c) eqn:Hc; [|discriminate].
      intros H'. apply IH in H'. destruct H' as (n & st' & Hn & Hr & Hk).
      exists (S n), st'. repeat split; auto with re. lia. }
    destruct lo as [|lo].
    + cbn [rep] in H.
      destruct gr; apply orelse_some in H;
        destruct H as [H | [_ H]]; auto;
        exists 0, (MState p (c :: s) g); auto with re.
    + apply Hmore. exact H.
Qed.

Lemma m_sound r :
  forall k st res,
    m r k st = Some res -> exists st', matches r st st' /\ k st' = Some res.
Proof.
  induction r; intros k st res H; simpl in H.
  - eauto with re.
  - destruct st as [p s g]; simpl in H.
    destruct s as [|c s]; [discriminate|].
    destruct (cls_match x c) eqn:Hc; [|discriminate]. eauto with re.
  - destruct st as [p s g]; simpl in H.
    apply rep_sound in H. destruct H as (n & st' & Hn & Hr & Hk).
    eauto with re.
  - apply IHr1 in H. destruct H as (st1 & H1 & H).
    apply IHr2 in H. destruct H as (st2 & H2 & H). eauto with re.
  - apply IHr in H. destruct H as (st' & H1 & H). eauto with re.
  - destruct (Nat.eqb (pos st) 0) eqn:Hp; [|discriminate].
    apply Nat.eqb_eq in Hp. eauto with re.
  - destruct (rest st) as [|c [|d s]] eqn:Hs; try discriminate.
    + eauto with re.
    + destruct (N.eqb c NL) eqn:Hc; [|discriminate].
      apply N.eqb_eq in Hc. subst c. eauto with re.
Qed.

Lemma rep_complete gr x k :
  forall n st st',
    reps x n st st' -> k st' <> None ->
    forall lo, lo <= n -> rep gr x lo k (pos st) (groups st) (rest st) <> None.
Proof.
  induction 1 as [st | n p c s g st' Hc Hr IH]; intros Hk lo Hlo.
  - assert (lo = 0) by lia. subst lo. destruct st as [p s g]. simpl.
    destruct s as [|c s]; cbn [rep].
    + destruct gr; simpl; auto.
      destruct (k (MState p [] g)); simpl; congruence.
    + destruct gr.
      * destruct (if cls_match x c then _ else _); simpl; congruence.
      * destruct (k (MState p (c :: s) g)); simpl; congruence.
  - simpl. cbn [rep]. rewrite Hc.
    specialize (IH Hk (Nat.pred lo) ltac:(lia)). simpl in IH.
    destruct lo as [|lo]; auto.
    destruct gr.
    + destruct (rep true x (Nat.pred 0) k (S p) g s); simpl; congruence.
    + destruct (k (MState p (c :: s) g)); simpl; [congruence|].
      exact IH.
Qed.

Lemma m_complete r :
  forall st st', matches r st st' ->
  forall k, k st' <> None -> m r k st <> None.
Proof.
  induction 1; intros k Hk; simpl; auto.
  - rewrite H. exact Hk.
  - eapply rep_complete; eauto.
  - rewrite H. simpl. exact Hk.
  - destruct H as [H | H]; rewrite H; auto.
Qed.

(** A match reads a prefix of the text and advances by its length. *)
Lemma reps_span x n st st' :
  reps x n st st' ->
  exists w, rest st = w ++ rest st' /\ pos st' = pos st + n /\
            List.length w = n /\ groups st' = groups st /\
            forallb (cls_match x) w = true.
Proof.
  induction 1 as [st | n p c s g st' Hc Hr (w & Hw & Hp & Hl & Hg & Hf)].
  - exists []. simpl. repeat split; auto.
  - exists (c :: w). simpl in *. rewrite Hw, Hp, Hl, Hg, Hc, Hf.
    repeat split; auto; lia.
Qed.

Lemma matches_span r st st' :
  matches r st st' ->
  exists w, rest st = w ++ rest st' /\ pos st' = pos st + List.length w.
Proof.
  induction 1; simpl.
  - exists []. auto.
  - exists [c]. simpl. split; auto. lia.
  - apply reps_span in H0. destruct H0 as (w & Hw & Hp & Hl & _).
    exists w. rewrite Hl. auto.
  - destruct IHmatches1 as (w1 & Hw1 & Hp1).
    destruct IHmatches2 as (w2 & Hw2 & Hp2).
    exists (w1 ++ w2). rewrite Hw1, Hw2, Hp2, Hp1, <- app_assoc, length_app.
    split; auto. lia.
  - exact IHmatches.
  - exists []. auto.
  - exists []. auto.
Qed.

Lemma match_at_sound r adv p s st :
  match_at r adv p s = Some st ->
  matches r (MState p s []) st /\ (adv = true -> pos st <> p).
Proof.
  unfold match_at. intros H. apply m_sound in H.
  destruct H as (st' & Hm & Hk).
  destruct (adv && Nat.eqb (pos st') p) eqn:Ha; [discriminate|].
  injection Hk as <-. split; auto.
  intros ->. simpl in Ha. apply Nat.eqb_neq in Ha. exact Ha.
Qed.

Lemma match_at_complete r p s st :
  matches r (MState p s []) st -> match_at r false p s <> None.
Proof.
  intros H. unfold match_at. eapply m_complete; eauto. simpl. congruence.
Qed.

(** Inversion, one lemma per construct. *)
Lemma matches_eps_inv st st' : matches Eps st st' -> st' = st.
Proof. inversion 1; reflexivity. Qed.

Lemma matches_one_inv x st st' :
  matches (One x) st st' ->
  exists c s, rest st = c :: s /\ cls_match x c = true /\
              st' = MState (S (pos st)) s (groups st).
Proof. inversion 1; subst; simpl; eauto. Qed.

Lemma matches_rep_inv gr lo x st st' :
  matches (Rep gr lo x) st st' -> exists n, lo <= n /\ reps x n st st'.
Proof. inversion 1; subst; eauto. Qed.

Lemma matches_cat_inv r1 r2 st st2 :
  matches (Cat r1 r2) st st2 ->
  exists st1, matches r1 st st1 /\ matches r2 st1 st2.
Proof. inversion 1; subst; eauto. Qed.

Lemma matches_grp_inv n r st st2 :
  matches (Grp n r) st st2 ->
  exists st', matches r st st' /\
    st2 = MState (pos st') (rest st')
            ((n, firstn (pos st' - pos st) (rest st)) :: groups st').
Proof. inversion 1; subst; eauto. Qed.

Lemma matches_bol_inv st st' : matches Bol st st' -> st' = st /\ pos st = 0.
Proof. inversion 1; auto. Qed.

Lemma matches_eol_inv st st' :
  matches Eol st st' -> st' = st /\ (rest st = [] \/ rest st = [NL]).
Proof. inversion 1; auto. Qed.

(** ** Substitution *)

Section Substitution.

Variable r : re.
Variable t : list titem.

(** Where every match is replaced by its own text, nothing changes. *)
Hypothesis same_text :
  forall p s st,
    matches r (MState p s []) st -> expand t (groups st) = firstn (pos st - p) s.

Lemma match_at_same_text adv p s st :
  match_at r adv p s = Some st ->
  exists w, s = w ++ rest st /\ pos st = p + List.length w /\
            expand t (groups st) = w /\ (adv = true -> w <> []).
Proof.
  intros H. apply match_at_sound in H. destruct H as [Hm Hadv].
  pose proof (same_text Hm) as He.
  apply matches_span in Hm. simpl in Hm. destruct Hm as (w & Hw & Hp).
  exists w. repeat split; auto.
  - rewrite He, Hp, Hw.
    replace (p + List.length w - p) with (List.length w + 0) by lia.
    rewrite firstn_app_2. simpl. apply app_nil_r.
  - intros Ha ->. apply (Hadv Ha). simpl in Hp. lia.
Qed.

Lemma sub_go_same_text :
  forall s p skip, skip <= List.length s -> sub_go r t p skip s = skipn skip s.
Proof.
  induction s as [|c s IH]; intros p skip Hskip; simpl in Hskip.
  - assert (skip = 0) by lia. subst skip. simpl.
    destruct (match_at r false p []) as [st|] eqn:Hm; auto.
    apply match_at_same_text in Hm. destruct Hm as (w & Hw & _ & He & _).
    rewrite He. destruct w; [reflexivity | discriminate].
  - destruct skip as [|n]; cbn [sub_go skipn].
    2:{ apply IH. lia. }
    destruct (match_at r false p (c :: s)) as [st|] eqn:Hm.
    2:{ rewrite IH by lia. reflexivity. }
    apply match_at_same_text in Hm. destruct Hm as (w & Hw & Hp & He & _).
    destruct (Nat.eqb (pos st) p) eqn:Hpos.
    + apply Nat.eqb_eq in Hpos.
      assert (w = []) by (destruct w; [reflexivity | simpl in Hp; lia]).
      rewrite He, H. simpl.
      destruct (match_at r true p (c :: s)) as [st2|] eqn:Hm2.
      2:{ rewrite IH by lia. reflexivity. }
      apply match_at_same_text in Hm2.
      destruct Hm2 as (w2 & Hw2 & Hp2 & He2 & Hne).
      destruct w2 as [|d w2]; [exfalso; apply Hne; reflexivity|].
      simpl in Hw2. injection Hw2 as -> ->.
      rewrite He2, Hp2, IH by (simpl; rewrite length_app; lia).
      simpl. replace (p + S (List.length w2) - p - 1) with (List.length w2 + 0) by lia.
      rewrite skipn_app, skipn_all2 by lia.
      replace (List.length w2 + 0 - List.length w2) with 0 by lia. reflexivity.
    + apply Nat.eqb_neq in Hpos.
      destruct w as [|d w]; [simpl in Hp; lia|].
      simpl in Hw. injection Hw as -> ->.
      rewrite He, Hp, IH by (simpl; rewrite length_app; lia).
      simpl. replace (p + S (List.length w) - p - 1) with (List.length w + 0) by lia.
      rewrite skipn_app, skipn_all2 by lia.
      replace (List.length w + 0 - List.length w) with 0 by lia. reflexivity.
Qed.

Lemma sub_same_text s : sub r t s = s.
Proof. unfold sub. rewrite sub_go_same_text by lia. reflexivity. Qed.

End Substitution.

Lemma matches_word d :
  forall st st', matches (word d) st st' ->
    rest st = d ++ rest st' /\ pos st' = pos st + List.length d /\
    groups st' = groups st.
Proof.
  induction d as [|c d IH]; intros st st' H.
  - apply matches_eps_inv in H. subst. simpl. auto.
  - assert (Hone : forall st1, matches (One (Lit c)) st st1 ->
              rest st = c :: rest st1 /\ pos st1 = S (pos st) /\
              groups st1 = groups st).
    { intros st1 H1. apply matches_one_inv in H1.
      destruct H1 as (c' & s' & Hr & Hc & ->). simpl in *.
      apply N.eqb_eq in Hc. subst. auto. }
    destruct d as [|c' d].
    + apply Hone in H. destruct H as (Hr & Hp & Hg).
      simpl. rewrite Hr, Hp, Hg. repeat split; auto; lia.
    + change (word (c :: c' :: d)) with (Cat (One (Lit c)) (word (c' :: d))) in H.
      apply matches_cat_inv in H. destruct H as (st1 & H1 & H2).
      apply Hone in H1. destruct H1 as (Hr1 & Hp1 & Hg1).
      apply IH in H2. destruct H2 as (Hr & Hp & Hg).
      rewrite Hr1, Hr, Hp, Hp1, Hg, Hg1.
      change (List.length (c :: c' :: d)) with (S (List.length (c' :: d))).
      repeat split; auto; lia.
Qed.

Lemma expand_app t1 t2 g : expand (t1 ++ t2) g = expand t1 g ++ expand t2 g.
Proof.
  induction t1 as [|[c|n] t1 IH]; simpl; auto.
  - rewrite IH. reflexivity.
  - rewrite IH, app_assoc. reflexivity.
Qed.

Lemma expand_text w g : expand (text w) g = w.
Proof. induction w; simpl; congruence. Qed.

(** A delimited span with its inside captured, rebuilt by the template
    "delimiter, group 1, delimiter": the replacement is the match. *)
Lemma delimited_same_text d p s st :
  matches (Cat (word d) (Cat (Grp 1 (Rep false 0 Dot)) (word d)))
    (MState p s []) st ->
  expand (text d ++ [TRef 1] ++ text d) (groups st) = firstn (pos st - p) s.
Proof.
  intros H. apply matches_cat_inv in H. destruct H as (st1 & H1 & H).
  apply matches_cat_inv in H. destruct H as (st2 & H2 & H3).
  apply matches_grp_inv in H2. destruct H2 as (st4 & Hg & ->).
  apply matches_word in H1. simpl in H1. destruct H1 as (Hs & Hp1 & Hg1).
  apply matches_word in H3. simpl in H3. destruct H3 as (Hs4 & Hp & Hgs).
  apply matches_span in Hg. destruct Hg as (w & Hw & Hp4).
  rewrite !expand_app, !expand_text, Hgs. simpl.
  rewrite app_nil_r.
  rewrite Hp, Hp4, Hp1, Hs, Hw, Hs4.
  replace (p + List.length d + List.length w - (p + List.length d))
    with (List.length w + 0) by lia.
  rewrite firstn_app_2. simpl. rewrite app_nil_r.
  replace (p + List.length d + List.length w + List.length d - p)
    with (List.length (d ++ w ++ d) + 0)
    by (rewrite !length_app; lia).
  replace (d ++ w ++ d ++ rest st) with ((d ++ w ++ d) ++ rest st)
    by (rewrite <- !app_assoc; reflexivity).
  rewrite firstn_app_2. simpl. rewrite app_nil_r. reflexivity.
Qed.

Lemma keep_styles_same (s : str) : keep_styles s = s.
Proof.
  unfold keep_styles.
  rewrite (@sub_same_text bold_re bold_tpl)
    by (intros; apply (@delimited_same_text (lit "**")); assumption).
  rewrite (@sub_same_text underline_re underline_tpl)
    by (intros; apply (@delimited_same_text (lit "__")); assumption).
  apply (@sub_same_text italic_re italic_tpl).
  intros; apply (@delimited_same_text (lit "*")); assumption.
Qed.

Lemma format_is_promotion (s : str) :
  _format_markdown_content s = join [NL] (promote_headings (split NL s)).
Proof. unfold _format_markdown_content. rewrite keep_styles_same. reflexivity. Qed.

(** C7: the three substitutions that re-affirm bold, underline and
    italic spans return every string unchanged, so the formatting pass is
    the heading promotion alone, applied to the lines of its input. *)
Theorem keep_styles_identity (s : str) :
  keep_styles s = s /\
  _format_markdown_content s = join [NL] (promote_headings (split NL s)).
Proof. split; [apply keep_styles_same | apply format_is_promotion]. Qed.

(** ** Searching and slicing *)

Lemma startswith_iff p : forall s, startswith p s = true <-> exists t, s = p ++ t.
Proof.
  induction p as [|x p IH]; intros s; simpl.
  - split; eauto.
  - destruct s as [|y s].
    + split; [discriminate | intros [t Ht]; discriminate].
    + rewrite andb_true_iff, N.eqb_eq, IH. split.
      * intros [-> [t ->]]. eauto.
      * intros [t Ht]. injection Ht as -> ->. eauto.
Qed.

Lemma occurs_at_iff s sub i :
  occurs_at s sub i <-> i <= List.length s /\ startswith sub (skipn i s) = true.
Proof.
  rewrite startswith_iff. split.
  - intros (pre & post & -> & <-). split.
    + rewrite length_app. lia.
    + exists post. rewrite skipn_app, skipn_all, Nat.sub_diag. reflexivity.
  - intros [Hi [t Ht]]. exists (firstn i s), t. split.
    + rewrite <- Ht. symmetry. apply firstn_skipn.
    + apply firstn_length_le. exact Hi.
Qed.

Lemma find_from_spec sub :
  forall s i,
    match find_from sub s i with
    | Some k => i <= k /\ k - i <= List.length s /\
                startswith sub (skipn (k - i) s) = true /\
                forall j, j < k - i -> startswith sub (skipn j s) = false
    | None => forall j, j <= List.length s -> startswith sub (skipn j s) = false
    end.
Proof.
  induction s as [|c s IH]; intros i.
  - simpl. destruct (startswith sub []) eqn:H0.
    + rewrite Nat.sub_diag. simpl. repeat split; auto; lia.
    + intros j Hj. simpl in Hj. rewrite skipn_nil. exact H0.
  - cbn [find_from]. destruct (startswith sub (c :: s)) eqn:H0.
    + rewrite Nat.sub_diag. simpl. repeat split; auto; lia.
    + specialize (IH (S i)). destruct (find_from sub s (S i)) as [k|].
      * destruct IH as (Hk & Hl & Hs & Hmin).
        replace (k - i) with (S (k - S i)) by lia. simpl.
        repeat split; auto; try lia.
        intros [|j] Hj; simpl; auto. apply Hmin. lia.
      * intros [|j] Hj; simpl; auto. apply IH. simpl in Hj. lia.
Qed.

Lemma find_first s sub from i :
  first_at s sub from i -> find s sub (Z.of_nat from) = Z.of_nat i.
Proof.
  intros (Hfrom & Hocc & Hmin).
  apply occurs_at_iff in Hocc. destruct Hocc as [Hi Hs].
  unfold find.
  destruct (Z.of_nat from <? 0)%Z eqn:Hneg; [apply Z.ltb_lt in Hneg; lia|].
  destruct (Z.of_nat (List.length s) <? Z.of_nat from)%Z eqn:Hbig;
    [apply Z.ltb_lt in Hbig; lia|].
  rewrite Nat2Z.id.
  pose proof (find_from_spec sub (skipn from s) from) as Hf.
  destruct (find_from sub (skipn from s) from) as [k|].
  - destruct Hf as (Hk & Hl & Hsk & Hmink).
    rewrite length_skipn in Hl. rewrite skipn_skipn in Hsk.
    f_equal.
    destruct (Nat.lt_trichotomy k i) as [Hlt | [Heq | Hgt]]; auto.
    + exfalso. apply (Hmin k); [lia|].
      apply occurs_at_iff. split; [lia|].
      replace k with (k - from + from) by lia. exact Hsk.
    + exfalso. specialize (Hmink (i - from) ltac:(lia)).
      rewrite skipn_skipn in Hmink.
      replace (i - from + from) with i in Hmink by lia. congruence.
  - exfalso. specialize (Hf (i - from)). rewrite length_skipn in Hf.
    specialize (Hf ltac:(lia)). rewrite skipn_skipn in Hf.
    replace (i - from + from) with i in Hf by lia. congruence.
Qed.

Lemma find_absent s sub start : ~ occurs s sub -> find s sub start = (-1)%Z.
Proof.
  intros Hno. unfold find.
  set (b := if (start <? 0)%Z then _ else _).
  destruct (Z.of_nat (List.length s) <? b)%Z eqn:Hbig; auto.
  apply Z.ltb_ge in Hbig.
  assert (Hb : (0 <= b)%Z) by (subst b; destruct (start <? 0)%Z eqn:H; lia).
  pose proof (find_from_spec sub (skipn (Z.to_nat b) s) (Z.to_nat b)) as Hf.
  destruct (find_from sub (skipn (Z.to_nat b) s) (Z.to_nat b)) as [k|]; auto.
  exfalso. apply Hno. exists k.
  destruct Hf as (Hk & Hl & Hsk & _).
  rewrite length_skipn in Hl. rewrite skipn_skipn in Hsk.
  apply occurs_at_iff. split; [lia|].
  replace k with (k - Z.to_nat b + Z.to_nat b) by lia. exact Hsk.
Qed.

Lemma occurs_empty s : occurs s [].
Proof. exists 0, [], s. auto. Qed.

Lemma slice_within s i j :
  i <= j -> j <= List.length s ->
  slice s (Z.of_nat i) (Z.of_nat j) = firstn (j - i) (skipn i s).
Proof.
  intros Hij Hj. unfold slice, clamp.
  destruct (Z.of_nat i <? 0)%Z eqn:Hi; [apply Z.ltb_lt in Hi; lia|].
  destruct (Z.of_nat j <? 0)%Z eqn:Hj0; [apply Z.ltb_lt in Hj0; lia|].
  rewrite !Z.min_l by lia.
  rewrite Nat2Z.id, <- Nat2Z.inj_sub, Nat2Z.id by lia. reflexivity.
Qed.

Lemma occursb_false s sub : occursb s sub = false -> ~ occurs s sub.
Proof.
  unfold occursb. intros H [i Hi]. apply occurs_at_iff in Hi.
  pose proof (find_from_spec sub s 0) as Hf.
  destruct (find_from sub s 0); [discriminate|].
  destruct Hi as [Hi Hs]. rewrite (Hf i Hi) in Hs. discriminate.
Qed.

Lemma first_atb_true s sub from i : first_atb s sub from i = true -> first_at s sub from i.
Proof.
  unfold first_atb. rewrite !andb_true_iff, !Nat.leb_le, forallb_forall.
  intros [[[Hfrom Hi] Hs] Hmin]. repeat split; auto.
  - apply occurs_at_iff. auto.
  - intros j Hj Hocc. apply occurs_at_iff in Hocc.
    specialize (Hmin j). rewrite in_seq in Hmin.
    specialize (Hmin ltac:(lia)). destruct Hocc as [_ Hocc].
    rewrite Hocc in Hmin. discriminate.
Qed.

(** ** Extraction *)

Section Extraction.

Variable E : env.
Variable self : handler.

Lemma extract_markdown_try_select cleaned start end_ md s :
  to_markdown E (pdf_path self) = inr md ->
  extract_markdown_try E self cleaned start end_ s =
  select (processed cleaned md) start end_ (traced s (IoEngine (pdf_path self))).
Proof.
  intros Hmd. unfold extract_markdown_try, engine_markdown, bind, emit.
  rewrite Hmd. reflexivity.
Qed.

Lemma pages_text_ok texts s : pages_text (map inr texts) s = (inr texts, s).
Proof.
  induction texts as [|t ts IH]; simpl; auto.
  unfold bind. rewrite IH. reflexivity.
Qed.

Lemma extract_text_try_select start end_ texts s :
  pymupdf_open E (pdf_path self) = inr (map inr texts) ->
  extract_text_try E self start end_ s =
  bind (select (joined texts) start end_) (fun t => ret (VStr t))
    (traced s (IoEngine (pdf_path self))).
Proof.
  intros Hdoc. unfold extract_text_try, engine_text, bind, emit.
  rewrite Hdoc, pages_text_ok. unfold select, joined.
  destruct (truthy start || truthy end_); auto.
  destruct (_ || _); reflexivity.
Qed.

Lemma select_between content a b i j s :
  b <> [] ->
  first_at content a 0 i -> first_at content b i j ->
  select content (Some a) (Some b) s =
  (inr (strip (firstn (j - i) (skipn i content))), s).
Proof.
  intros Hb Ha Hfb.
  assert (Hstart : (if truthy (Some a) then find content a 0 else 0%Z) = Z.of_nat i).
  { destruct a as [|c a]; simpl.
    - destruct Ha as (_ & _ & Hmin). destruct i as [|i]; auto.
      exfalso. apply (Hmin 0); [lia|]. exists [], content. auto.
    - apply (@find_first content (c :: a) 0 i Ha). }
  assert (Hend : find content b (Z.of_nat i) = Z.of_nat j)
    by (apply find_first; exact Hfb).
  assert (Htb : truthy (Some b) = true) by (destruct b; [congruence | reflexivity]).
  unfold select, the. cbv zeta. rewrite Htb, orb_true_r, Hstart, Hend.
  destruct (Z.of_nat i =? -1)%Z eqn:Hi; [apply Z.eqb_eq in Hi; lia|].
  destruct (Z.of_nat j =? -1)%Z eqn:Hj; [apply Z.eqb_eq in Hj; lia|].
  simpl. unfold ret. rewrite slice_within; auto.
  - destruct Hfb as (Hij & _); exact Hij.
  - destruct Hfb as (_ & Hocc & _). apply occurs_at_iff in Hocc. tauto.
Qed.

Lemma select_absent content start end_ s :
  (exists a, start = Some a /\ ~ occurs content a) \/
  (exists b, end_ = Some b /\ ~ occurs content b) ->
  select content start end_ s =
  (inr (strip content), logged s WARNING not_found_warning).
Proof.
  assert (Hne : forall x, ~ occurs content x -> truthy (Some x) = true).
  { intros [|c x] H; [|reflexivity]. exfalso. apply H, occurs_empty. }
  intros [(a & -> & Ha) | (b & -> & Hb)]; unfold select, the; cbv zeta.
  - rewrite (Hne a Ha). simpl orb. rewrite (find_absent _ Ha). reflexivity.
  - rewrite (Hne b Hb), orb_true_r. rewrite (find_absent _ Hb).
    simpl. rewrite orb_true_r. reflexivity.
Qed.

End Extraction.

(** C1: with a start marker and a non-empty end marker, both found, the
    end marker at or after the first occurrence of the start marker, both
    extractions return the content from the first occurrence of the start
    marker up to the first occurrence of the end marker at or after it,
    stripped of leading and trailing whitespace. *)
Theorem extract_between_markers
    (E : env) (self : handler) (cleaned : bool) (md : str) (texts : list str)
    (a b : str) (s : state) :
  b <> [] ->
  (to_markdown E (pdf_path self) = inr md ->
   forall i j,
     first_at (processed cleaned md) a 0 i ->
     first_at (processed cleaned md) b i j ->
     extract_markdown_content E self cleaned (Some a) (Some b) s =
     (inr (strip (firstn (j - i) (skipn i (processed cleaned md)))),
      traced s (IoEngine (pdf_path self))))
  /\
  (pymupdf_open E (pdf_path self) = inr (map inr texts) ->
   forall i j,
     first_at (joined texts) a 0 i ->
     first_at (joined texts) b i j ->
     extract_text_content E self (Some a) (Some b) s =
     (inr (VStr (strip (firstn (j - i) (skipn i (joined texts))))),
      traced s (IoEngine (pdf_path self)))).
Proof.
  intros Hb. split.
  - intros Hmd i j Ha Hfb. unfold extract_markdown_content, catch.
    erewrite extract_markdown_try_select by eassumption.
    erewrite select_between by eassumption. reflexivity.
  - intros Hdoc i j Ha Hfb. unfold extract_text_content, catch.
    erewrite extract_text_try_select by eassumption. unfold bind.
    erewrite select_between by eassumption. reflexivity.
Qed.

Lemma extract_between_markers_witness :
  extract_markdown_content
    (sample_env (inr (lit "intro BEGIN  body text  END outro")) (inr []))
    sample_handler false (Some (lit "BEGIN")) (Some (lit "END")) sample_state
  = (inr (lit "BEGIN  body text"),
     traced sample_state (IoEngine (lit "/docs/report.pdf")))
  /\
  extract_text_content
    (sample_env (inr []) (inr (map inr [lit "page one BEGIN"; lit "two END"])))
    sample_handler (Some (lit "BEGIN")) (Some (lit "END")) sample_state
  = (inr (VStr (lit "BEGIN" ++ [NL; NL] ++ lit "two")),
     traced sample_state (IoEngine (lit "/docs/report.pdf"))).
Proof.
  assert (Hb : lit "END" <> []) by discriminate.
  destruct (extract_between_markers
              (sample_env (inr (lit "intro BEGIN  body text  END outro")) (inr []))
              sample_handler false (lit "intro BEGIN  body text  END outro")
              [] (lit "BEGIN") sample_state Hb) as [Hmd _].
  destruct (extract_between_markers
              (sample_env (inr []) (inr (map inr [lit "page one BEGIN"; lit "two END"])))
              sample_handler false []
              [lit "page one BEGIN"; lit "two END"] (lit "BEGIN") sample_state Hb)
    as [_ Htxt].
  split.
  - apply (Hmd eq_refl 6 24); apply first_atb_true; reflexivity.
  - apply (Htxt eq_refl 9 20); apply first_atb_true; reflexivity.
Defined.

(** C2: when a marker that was passed does not occur in the content,
    neither extraction raises: each logs one warning and returns the
    whole content, changed by nothing but the stripping of leading and
    trailing whitespace. *)
Theorem missing_marker_returns_full_content
    (E : env) (self : handler) (cleaned : bool) (md : str) (texts : list str)
    (start end_ : option str) (s : state) :
  (to_markdown E (pdf_path self) = inr md ->
   (exists a, start = Some a /\ ~ occurs (processed cleaned md) a) \/
   (exists b, end_ = Some b /\ ~ occurs (processed cleaned md) b) ->
   extract_markdown_try E self cleaned start end_ s =
     (inr (strip (processed cleaned md)),
      logged (traced s (IoEngine (pdf_path self))) WARNING not_found_warning) /\
   extract_markdown_content E self cleaned start end_ s =
     (inr (strip (processed cleaned md)),
      logged (traced s (IoEngine (pdf_path self))) WARNING not_found_warning))
  /\
  (pymupdf_open E (pdf_path self) = inr (map inr texts) ->
   (exists a, start = Some a /\ ~ occurs (joined texts) a) \/
   (exists b, end_ = Some b /\ ~ occurs (joined texts) b) ->
   extract_text_try E self start end_ s =
     (inr (VStr (strip (joined texts))),
      logged (traced s (IoEngine (pdf_path self))) WARNING not_found_warning) /\
   extract_text_content E self start end_ s =
     (inr (VStr (strip (joined texts))),
      logged (traced s (IoEngine (pdf_path self))) WARNING not_found_warning)).
Proof.
  split.
  - intros Hmd Habs.
    assert (Htry : extract_markdown_try E self cleaned start end_ s =
                   (inr (strip (processed cleaned md)),
                    logged (traced s (IoEngine (pdf_path self))) WARNING
                      not_found_warning)).
    { erewrite extract_markdown_try_select by eassumption.
      apply select_absent. exact Habs. }
    split; [exact Htry|].
    unfold extract_markdown_content, catch. rewrite Htry. reflexivity.
  - intros Hdoc Habs.
    assert (Htry : extract_text_try E self start end_ s =
                   (inr (VStr (strip (joined texts))),
                    logged (traced s (IoEngine (pdf_path self))) WARNING
                      not_found_warning)).
    { erewrite extract_text_try_select by eassumption. unfold bind.
      rewrite select_absent by exact Habs. reflexivity. }
    split; [exact Htry|].
    unfold extract_text_content, catch. rewrite Htry. reflexivity.
Qed.

Lemma missing_marker_returns_full_content_witness :
  extract_markdown_content
    (sample_env (inr (lit "  some markdown  ")) (inr []))
    sample_handler false (Some (lit "BEGIN")) None sample_state
  = (inr (lit "some markdown"),
     logged (traced sample_state (IoEngine (lit "/docs/report.pdf")))
       WARNING not_found_warning)
  /\
  extract_text_content
    (sample_env (inr []) (inr (map inr [lit " page one"; lit "page two "])))
    sample_handler (Some (lit "page")) (Some (lit "END")) sample_state
  = (inr (VStr (lit "page one" ++ [NL; NL] ++ lit "page two")),
     logged (traced sample_state (IoEngine (lit "/docs/report.pdf")))
       WARNING not_found_warning).
Proof.
  destruct (missing_marker_returns_full_content
              (sample_env (inr (lit "  some markdown  ")) (inr []))
              sample_handler false (lit "  some markdown  ") []
              (Some (lit "BEGIN")) None sample_state) as [Hmd _].
  destruct (missing_marker_returns_full_content
              (sample_env (inr []) (inr (map inr [lit " page one"; lit "page two "])))
              sample_handler false [] [lit " page one"; lit "page two "]
              (Some (lit "page")) (Some (lit "END")) sample_state) as [_ Htxt].
  split.
  - apply (Hmd eq_refl). left. exists (lit "BEGIN"). split; [reflexivity|].
    apply occursb_false. reflexivity.
  - apply (Htxt eq_refl). right. exists (lit "END"). split; [reflexivity|].
    apply occursb_false. reflexivity.
Defined.

Lemma pages_text_fails before e after s :
  pages_text (map inr before ++ inl e :: after) s = (inl e, s).
Proof.
  induction before as [|t ts IH]; simpl; auto.
  unfold bind. rewrite IH. reflexivity.
Qed.

(** C3: a failure inside the Markdown extraction is logged and returned
    as a string that describes the error; a failure inside the plain-text
    extraction is logged and returned as [False].  Neither raises. *)
Theorem extraction_failure_conventions
    (E : env) (self : handler) (cleaned : bool) (start end_ : option str)
    (e : exn) (s : state) :
  (to_markdown E (pdf_path self) = inl e ->
   extract_markdown_content E self cleaned start end_ s =
     (inr (lit "An error occurred while extracting content: " ++ exn_msg e),
      logged (traced s (IoEngine (pdf_path self))) ERROR
        (lit "An error occurred while extracting content: " ++ exn_msg e)))
  /\
  (text_fails (pymupdf_open E (pdf_path self)) e ->
   extract_text_content E self start end_ s =
     (inr VFalse,
      logged (traced s (IoEngine (pdf_path self))) ERROR
        (lit "An error occurred while extracting text content: " ++ exn_msg e))).
Proof.
  split.
  - intros Hmd.
    unfold extract_markdown_content, catch, extract_markdown_try,
      engine_markdown, bind, emit.
    rewrite Hmd. reflexivity.
  - intros Hdoc.
    unfold extract_text_content, catch, extract_text_try, engine_text, bind, emit.
    destruct Hdoc as [Hdoc | (before & after & Hdoc)]; rewrite Hdoc.
    + reflexivity.
    + rewrite pages_text_fails. reflexivity.
Qed.

Lemma extraction_failure_conventions_witness :
  extract_markdown_content
    (sample_env (inl (Exn OtherException (lit "no such file"))) (inr []))
    sample_handler true None None sample_state
  = (inr (lit "An error occurred while extracting content: no such file"),
     logged (traced sample_state (IoEngine (lit "/docs/report.pdf"))) ERROR
       (lit "An error occurred while extracting content: no such file"))
  /\
  extract_text_content
    (sample_env (inr [])
       (inr [inr (lit "page one"); inl (Exn OtherException (lit "bad page"))]))
    sample_handler None None sample_state
  = (inr VFalse,
     logged (traced sample_state (IoEngine (lit "/docs/report.pdf"))) ERROR
       (lit "An error occurred while extracting text content: bad page")).
Proof.
  split.
  - apply (extraction_failure_conventions
             (sample_env (inl (Exn OtherException (lit "no such file"))) (inr []))
             sample_handler true None None
             (Exn OtherException (lit "no such file")) sample_state).
    reflexivity.
  - apply (extraction_failure_conventions
             (sample_env (inr [])
                (inr [inr (lit "page one"); inl (Exn OtherException (lit "bad page"))]))
             sample_handler true None None
             (Exn OtherException (lit "bad page")) sample_state).
    right. exists [lit "page one"], []. reflexivity.
Defined.

(** ** Construction and validation *)

(** C4, as the code has it: construction fails with [FileNotFoundError]
    for every path that does not exist, and succeeds for every path that
    exists, a regular file or a directory; it then stores the path, leaves
    the buffer unset and performs no I/O but the existence test. *)
Theorem init_checks_existence_only (resource_path : str) (s : state) :
  (fs s resource_path = Missing ->
   __init__ resource_path s =
     (inl (Exn FileNotFoundError (lit "File not found: " ++ resource_path)),
      traced s (IoStat resource_path)))
  /\
  (fs s resource_path <> Missing ->
   __init__ resource_path s =
     (inr (Handler resource_path None), traced s (IoStat resource_path))).
Proof.
  unfold __init__, os_path_exists, bind, stat, ret, raise, traced.
  split; intros H.
  - rewrite H. reflexivity.
  - destruct (fs s resource_path); congruence || reflexivity.
Qed.

Lemma init_checks_existence_only_witness :
  __init__ (lit "/docs/missing.pdf") sample_state =
    (inl (Exn FileNotFoundError (lit "File not found: /docs/missing.pdf")),
     traced sample_state (IoStat (lit "/docs/missing.pdf")))
  /\
  __init__ (lit "/docs/report.pdf") sample_state =
    (inr (Handler (lit "/docs/report.pdf") None),
     traced sample_state (IoStat (lit "/docs/report.pdf"))).
Proof.
  split.
  - apply (init_checks_existence_only (lit "/docs/missing.pdf") sample_state).
    reflexivity.
  - apply (init_checks_existence_only (lit "/docs/report.pdf") sample_state).
    discriminate.
Defined.

(** C4 as stated fails on a directory: [/docs] exists and is no file,
    yet the constructor raises nothing and returns a handler for it. *)
Lemma init_accepts_directory :
  fs sample_state (lit "/docs") = Dir /\
  fst (__init__ (lit "/docs") sample_state) = inr (Handler (lit "/docs") None) /\
  forall msg,
    fst (__init__ (lit "/docs") sample_state) <> inl (Exn FileNotFoundError msg).
Proof. repeat split. discriminate. Qed.

Lemma eqb_refl (a : str) : PyStr.eqb a a = true.
Proof. induction a; simpl; auto. rewrite N.eqb_refl. exact IHa. Qed.

Lemma eqb_eq (a b : str) : PyStr.eqb a b = true <-> a = b.
Proof.
  revert b. induction a as [|x a IH]; intros [|y b]; simpl; split;
    try discriminate; auto.
  - rewrite andb_true_iff, N.eqb_eq, IH. intros [-> ->]. reflexivity.
  - intros H. injection H as -> ->. rewrite N.eqb_refl. apply eqb_refl.
Qed.

(** *** The extension that [Path.suffix] finds *)

Lemma rfind_char_absent c s i acc :
  ~ In c s -> rfind_char c s i acc = acc.
Proof.
  revert i acc. induction s as [|d s IH]; intros i acc H; simpl; auto.
  rewrite IH by (intros Hin; apply H; right; exact Hin).
  destruct (N.eqb_spec d c) as [->|]; [|reflexivity].
  exfalso. apply H. left. reflexivity.
Qed.

Lemma rfind_char_last c pre post i acc :
  ~ In c post ->
  rfind_char c (pre ++ c :: post) i acc = Some (i + List.length pre).
Proof.
  intros H. revert i acc. induction pre as [|d pre IH]; intros i acc; simpl.
  - rewrite N.eqb_refl, rfind_char_absent by exact H. f_equal. lia.
  - rewrite IH. f_equal. lia.
Qed.

Lemma last_occurrence (c : char) (s : str) :
  (exists pre post, s = pre ++ c :: post /\ ~ In c post) \/ ~ In c s.
Proof.
  induction s as [|d s IH].
  - right. intros [].
  - destruct IH as [(pre & post & -> & H)|H].
    + left. exists (d :: pre), post. split; [reflexivity | exact H].
    + destruct (N.eqb_spec d c) as [->|Hd].
      * left. exists [], s. split; [reflexivity | exact H].
      * right. intros [Hin|Hin]; [exact (Hd Hin) | exact (H Hin)].
Qed.

Lemma skipn_length_app {A} (l1 l2 : list A) :
  skipn (List.length l1) (l1 ++ l2) = l2.
Proof. induction l1; simpl; auto. Qed.

Lemma skipn_past {A} (l1 : list A) (x : A) (l2 : list A) :
  skipn (S (List.length l1)) (l1 ++ x :: l2) = l2.
Proof. induction l1; simpl; auto. Qed.

Lemma path_name_after_slash (pre post : str) :
  ~ In 47%N post -> path_name (pre ++ 47%N :: post) = post.
Proof.
  intros H. unfold path_name. rewrite rfind_char_last by exact H.
  cbn [Nat.add]. apply skipn_past.
Qed.

Lemma path_name_no_slash (p : str) :
  ~ In 47%N p -> path_name p = p.
Proof.
  intros H. unfold path_name. rewrite rfind_char_absent by exact H.
  reflexivity.
Qed.

Lemma path_name_spec (p : str) :
  exists dir,
    p = dir ++ path_name p /\
    (dir = [] \/ exists d, dir = d ++ [47%N]) /\
    ~ In 47%N (path_name p).
Proof.
  destruct (last_occurrence 47%N p) as [(pre & post & -> & H)|H].
  - rewrite path_name_after_slash by exact H.
    exists (pre ++ [47%N]). rewrite <- app_assoc.
    split; [reflexivity|]. split; [right; exists pre; reflexivity | exact H].
  - rewrite path_name_no_slash by exact H.
    exists []. split; [reflexivity|]. split; [left; reflexivity | exact H].
Qed.

Lemma path_name_final (dir name : str) :
  (dir = [] \/ exists d, dir = d ++ [47%N]) ->
  ~ In 47%N name ->
  path_name (dir ++ name) = name.
Proof.
  intros [->|(d & ->)] H.
  - apply path_name_no_slash, H.
  - rewrite <- app_assoc. apply path_name_after_slash, H.
Qed.

(** [Path.suffix] is the dot and the extension of a path that has one. *)
Lemma path_suffix_extension (p e : str) :
  has_extension p e -> path_suffix p = 46%N :: e.
Proof.
  intros (dir & stem & -> & Hdir & Hstem & He & Hs1 & Hs2 & Hdot).
  unfold path_suffix. cbv zeta.
  rewrite path_name_final.
  - rewrite rfind_char_last by exact Hdot. cbn [Nat.add].
    rewrite length_app. cbn [List.length].
    assert (0 < List.length stem) by (destruct stem; [congruence | simpl; lia]).
    assert (0 < List.length e) by (destruct e; [congruence | simpl; lia]).
    change (@List.length char) with (@List.length N) in *.
    repeat match goal with
           | |- context [Nat.ltb ?a ?b] =>
               rewrite (proj2 (Nat.ltb_lt a b)) by lia
           end.
    cbn [andb]. apply skipn_length_app.
  - exact Hdir.
  - intros Hin. apply in_app_or in Hin. destruct Hin as [Hin|[Hin|Hin]].
    + exact (Hs1 Hin).
    + discriminate Hin.
    + exact (Hs2 Hin).
Qed.

(** A non-empty [Path.suffix] is the dot and the extension of the path. *)
Lemma path_suffix_inv (p : str) (c : char) (e : str) :
  path_suffix p = c :: e -> c = 46%N /\ has_extension p e.
Proof.
  unfold path_suffix. cbv zeta.
  destruct (path_name_spec p) as (dir & Hp & Hdir & Hslash).
  destruct (last_occurrence 46%N (path_name p)) as [(pre & post & Hn & H)|H].
  - rewrite Hn in *. rewrite rfind_char_last by exact H. cbn [Nat.add].
    rewrite length_app. cbn [List.length].
    change (@List.length char) with (@List.length N) in *.
    destruct (Nat.ltb 0 (@List.length N pre)) eqn:H1; [|discriminate].
    destruct (Nat.ltb (@List.length N pre)
                (@List.length N pre + S (@List.length N post) - 1)) eqn:H2;
      [|discriminate].
    cbn [andb].
    rewrite skipn_length_app. intros He. injection He as <- <-.
    apply Nat.ltb_lt in H1, H2.
    split; [reflexivity|].
    exists dir, pre. split; [exact Hp|]. split; [exact Hdir|].
    split; [destruct pre; [simpl in H1; lia | discriminate]|].
    split; [destruct post; [simpl in H2; lia | discriminate]|].
    split; [intros Hin; apply Hslash, in_or_app; left; exact Hin|].
    split; [intros Hin; apply Hslash, in_or_app; right; right; exact Hin|].
    exact H.
  - rewrite rfind_char_absent by exact H. discriminate.
Qed.

Lemma lower_char_inv (c k : N) :
  (if (65 <=? c) && (c <=? 90) then c + 32 else c)%N = k ->
  (c = k \/ (c + 32 = k /\ 65 <= c <= 90))%N.
Proof.
  destruct (N.leb_spec 65 c), (N.leb_spec c 90); simpl; intros <-; auto.
Qed.

(** The test of the code is the test of the extension. *)
Lemma is_pdf_iff (p : str) : is_pdf p = true <-> pdf_named p.
Proof.
  unfold is_pdf. rewrite eqb_eq. split.
  - intros H.
    destruct (path_suffix p) as [|c0 [|a [|b [|c [|? ?]]]]] eqn:Hs;
      try discriminate H.
    apply path_suffix_inv in Hs. destruct Hs as [_ Hs].
    exists [a; b; c]. split; [exact Hs|].
    unfold lower, lit in H. simpl in H.
    injection H as _ Ha Hb Hc.
    apply lower_char_inv in Ha, Hb, Hc.
    exists a, b, c. split; [reflexivity|].
    repeat split; lia.
  - intros (e & He & (a & b & c & -> & Ha & Hb & Hc)).
    rewrite (path_suffix_extension He).
    destruct Ha as [->| ->], Hb as [->| ->], Hc as [->| ->]; reflexivity.
Qed.

Lemma is_pdf_false (p : str) : ~ pdf_named p -> is_pdf p = false.
Proof.
  intros H. destruct (is_pdf p) eqn:Hp; [|reflexivity].
  exfalso. apply H, is_pdf_iff, Hp.
Qed.

(** *** The outcomes of [validate_paths] *)

(** C8, with the tests that pathlib can carry out: [validate_paths]
    raises [FileNotFoundError] when the source is not an existing file;
    for an existing source file it raises [ValueError] (the
    invalid-format error) when the extension, letter case apart, is not
    [.pdf]; for an existing PDF source it raises [NotADirectoryError]
    when the destination is missing or not a directory, and returns
    normally when the destination is an existing directory. When the test
    of the source, or after it that of the destination, fails with an
    [OSError] that pathlib passes on, [validate_paths] raises that error
    instead. *)
Theorem validate_paths_outcomes (stat_fault : str -> option exn)
    (source destination : str) (s : state) :
  (testable stat_fault s source = true ->
   is_file (fs s source) = false ->
   raises (validate_paths stat_fault source destination s) FileNotFoundError)
  /\
  (is_file (fs s source) = true -> ~ pdf_named source ->
   raises (validate_paths stat_fault source destination s) ValueError)
  /\
  (is_file (fs s source) = true -> pdf_named source ->
   testable stat_fault s destination = true ->
   is_dir (fs s destination) = false ->
   raises (validate_paths stat_fault source destination s) NotADirectoryError)
  /\
  (is_file (fs s source) = true -> pdf_named source ->
   is_dir (fs s destination) = true ->
   fst (validate_paths stat_fault source destination s) = inr tt)
  /\
  (forall e,
     fs s source = Missing -> stat_fault source = Some e ->
     fst (validate_paths stat_fault source destination s) = inl e)
  /\
  (forall e,
     is_file (fs s source) = true -> pdf_named source ->
     fs s destination = Missing -> stat_fault destination = Some e ->
     fst (validate_paths stat_fault source destination s) = inl e).
Proof.
  unfold raises, testable, validate_paths, path_exists, path_is_file,
    path_is_dir, path_stat, bind, stat, ret, raise.
  split; [|split; [|split; [|split; [|split]]]].
  - intros Ht Hf. destruct (fs s source) eqn:Hs; simpl in *; rewrite ?Hs;
      simpl; try discriminate.
    + destruct (stat_fault source); [discriminate|]. simpl. eauto.
    + destruct (stat_fault source); simpl; rewrite ?Hs; simpl; eauto.
  - intros Hf Hp. apply is_pdf_false in Hp. unfold is_pdf in Hp.
    destruct (fs s source) eqn:Hs; simpl in *; rewrite ?Hs;
      simpl; try discriminate.
    + destruct (stat_fault source); simpl; rewrite ?Hs; simpl;
        rewrite Hp; simpl; eauto.
    + rewrite Hp. simpl. eauto.
  - intros Hf Hp Ht Hd. apply is_pdf_iff in Hp. unfold is_pdf in Hp.
    destruct (fs s source) eqn:Hs; simpl in *; rewrite ?Hs;
      simpl; try discriminate.
    + destruct (stat_fault source); simpl; rewrite ?Hs; simpl;
        rewrite Hp; simpl;
        (destruct (fs s destination) eqn:Hdst; simpl in *; rewrite ?Hdst;
           simpl; try discriminate;
           [ destruct (stat_fault destination); [discriminate|]; simpl; eauto
           | destruct (stat_fault destination); simpl; rewrite ?Hdst; simpl; eauto
           | eauto ]).
    + rewrite Hp. simpl.
      destruct (fs s destination) eqn:Hdst; simpl in *; rewrite ?Hdst;
        simpl; try discriminate;
        [ destruct (stat_fault destination); [discriminate|]; simpl; eauto
        | destruct (stat_fault destination); simpl; rewrite ?Hdst; simpl; eauto
        | eauto ].
  - intros Hf Hp Hd. apply is_pdf_iff in Hp. unfold is_pdf in Hp.
    destruct (fs s source) eqn:Hs; simpl in *; rewrite ?Hs;
      simpl; try discriminate.
    + destruct (stat_fault source); simpl; rewrite ?Hs; simpl;
        rewrite Hp; simpl;
        (destruct (fs s destination) eqn:Hdst; simpl in *; rewrite ?Hdst;
           simpl; try discriminate; reflexivity).
    + rewrite Hp. simpl.
      destruct (fs s destination) eqn:Hdst; simpl in *; rewrite ?Hdst;
        simpl; try discriminate; reflexivity.
  - intros e Hs He. simpl. rewrite Hs, He. reflexivity.
  - intros e Hf Hp Hd He. apply is_pdf_iff in Hp. unfold is_pdf in Hp.
    destruct (fs s source) eqn:Hs; simpl in *; rewrite ?Hs;
      simpl; try discriminate.
    + destruct (stat_fault source); simpl; rewrite ?Hs; simpl;
        rewrite Hp; simpl; rewrite Hd, He; reflexivity.
    + rewrite Hp. simpl. rewrite Hd, He. reflexivity.
Qed.

Lemma report_pdf_named : pdf_named (lit "/docs/report.pdf").
Proof. apply is_pdf_iff. reflexivity. Qed.

Lemma validate_paths_outcomes_witness :
  raises (validate_paths no_stat_fault (lit "/docs/missing.pdf") (lit "/out")
            sample_state)
    FileNotFoundError
  /\ raises (validate_paths no_stat_fault (lit "/docs/notes.txt") (lit "/out")
               sample_state)
       ValueError
  /\ raises (validate_paths no_stat_fault (lit "/docs/report.pdf") (lit "/nowhere")
               sample_state)
       NotADirectoryError
  /\ fst (validate_paths no_stat_fault (lit "/docs/report.pdf") (lit "/out")
            sample_state) = inr tt
  /\ fst (validate_paths locked_stat_fault (lit "/locked/report.pdf") (lit "/out")
            sample_state) =
       inl (Exn PermissionError
              (lit "[Errno 13] Permission denied: '/locked/report.pdf'"))
  /\ fst (validate_paths
            (fun _ => Some (Exn PermissionError (lit "[Errno 13] Permission denied")))
            (lit "/docs/report.pdf") (lit "/nowhere") sample_state) =
       inl (Exn PermissionError (lit "[Errno 13] Permission denied")).
Proof.
  split; [|split; [|split; [|split; [|split]]]].
  - apply (validate_paths_outcomes no_stat_fault (lit "/docs/missing.pdf")
             (lit "/out") sample_state); reflexivity.
  - apply (validate_paths_outcomes no_stat_fault (lit "/docs/notes.txt")
             (lit "/out") sample_state).
    + reflexivity.
    + intros H. apply is_pdf_iff in H. discriminate H.
  - apply (validate_paths_outcomes no_stat_fault (lit "/docs/report.pdf")
             (lit "/nowhere") sample_state);
      reflexivity || exact report_pdf_named.
  - apply (validate_paths_outcomes no_stat_fault (lit "/docs/report.pdf")
             (lit "/out") sample_state);
      reflexivity || exact report_pdf_named.
  - destruct (validate_paths_outcomes locked_stat_fault (lit "/locked/report.pdf")
                (lit "/out") sample_state) as (_ & _ & _ & _ & H & _).
    apply H; reflexivity.
  - destruct (validate_paths_outcomes
                (fun _ => Some (Exn PermissionError (lit "[Errno 13] Permission denied")))
                (lit "/docs/report.pdf") (lit "/nowhere") sample_state)
      as (_ & _ & _ & _ & _ & H).
    apply H; reflexivity || exact report_pdf_named.
Defined.

(** C8 as stated fails in two ways. A source in a directory that cannot
    be searched makes [validate_paths] raise the [PermissionError] of the
    test: none of the three errors of the claim, and no acceptance. And a
    source whose extension is [.PDF], which is not [.pdf], is accepted. *)
Lemma validate_paths_other_outcomes :
  (fst (validate_paths locked_stat_fault (lit "/locked/report.pdf") (lit "/out")
          sample_state) =
     inl (Exn PermissionError
            (lit "[Errno 13] Permission denied: '/locked/report.pdf'"))
   /\ ~ raises (validate_paths locked_stat_fault (lit "/locked/report.pdf")
                  (lit "/out") sample_state) FileNotFoundError
   /\ ~ raises (validate_paths locked_stat_fault (lit "/locked/report.pdf")
                  (lit "/out") sample_state) ValueError
   /\ ~ raises (validate_paths locked_stat_fault (lit "/locked/report.pdf")
                  (lit "/out") sample_state) NotADirectoryError)
  /\
  (capitals_fs (lit "/docs/REPORT.PDF") = File [37; 80; 68; 70]%N
   /\ path_suffix (lit "/docs/REPORT.PDF") = lit ".PDF"
   /\ fst (validate_paths no_stat_fault (lit "/docs/REPORT.PDF") (lit "/out")
             (State capitals_fs [] [] [])) = inr tt).
Proof.
  split.
  - split; [reflexivity|].
    repeat split; intros (msg & H); discriminate H.
  - repeat split.
Qed.

(** ** The cached buffer *)

Lemma disk_reads_app p tr1 tr2 :
  disk_reads p (tr1 ++ tr2) = disk_reads p tr1 + disk_reads p tr2.
Proof.
  induction tr1 as [|ev tr1 IH]; simpl; auto.
  destruct ev; auto. rewrite IH. lia.
Qed.

Lemma nth_set_nth_eq {A} (l : list A) i x d :
  i < List.length l -> nth i (set_nth i x l) d = x.
Proof.
  revert i. induction l as [|y l IH]; intros [|i] H; simpl in *; try lia; auto.
  apply IH. lia.
Qed.

Lemma length_set_nth {A} (l : list A) i x :
  List.length (set_nth i x l) = List.length l.
Proof.
  revert i. induction l as [|y l IH]; intros [|i]; simpl; auto.
Qed.

Section Cache.

Variable E : env.
Variable path : str.
Variable data : list N.
Variable reads0 : nat.

Lemma step_cache_inv rs o :
  is_close o = false ->
  cache_inv path data reads0 rs -> cache_inv path data reads0 (step E rs o).
Proof.
  intros Ho Hinv. destruct Hinv as [s Hfs Hreads | s r k outs Hfs Hreads Hr Hb Houts].
  - destruct o; try (simpl; constructor; assumption).
    unfold step, get_memory_file, read_binary, bio_seek0, bind, emit, alloc,
      load, store, ret. simpl. rewrite Hfs. simpl.
    rewrite nth_middle. simpl.
    replace (set_nth (List.length (heap s)) (BytesIO data 0 false)
               (heap s ++ [BytesIO data 0 false]))
      with (heap s ++ [BytesIO data 0 false]).
    2:{ clear. induction (heap s); simpl; congruence. }
    rewrite nth_middle.
    apply cache_filled with (k := 0); simpl; auto.
    + rewrite !disk_reads_app. simpl. rewrite eqb_refl, Hreads. lia.
    + rewrite length_app. simpl. lia.
    + apply nth_middle.
  - destruct o; try discriminate.
    + unfold step, get_memory_file, bio_seek0, bind, load, store, ret. simpl.
      rewrite Hb. simpl. rewrite nth_set_nth_eq by exact Hr.
      apply cache_filled with (k := 0); simpl; auto.
      * rewrite length_set_nth. exact Hr.
      * apply nth_set_nth_eq. exact Hr.
      * apply Forall_app. split; auto.
    + simpl. rewrite Hb. simpl.
      eapply cache_filled; simpl; eauto.
      * rewrite length_set_nth. exact Hr.
      * apply nth_set_nth_eq. exact Hr.
    + simpl. rewrite Hb. simpl.
      eapply cache_filled; simpl; eauto.
      * rewrite length_set_nth. exact Hr.
      * apply nth_set_nth_eq. exact Hr.
Qed.

Lemma run_cache_inv ops :
  forallb (fun o => negb (is_close o)) ops = true ->
  forall rs, cache_inv path data reads0 rs ->
             cache_inv path data reads0 (run E ops rs).
Proof.
  induction ops as [|o ops IH]; simpl; intros Hops rs Hinv; auto.
  apply andb_true_iff in Hops. destruct Hops as [Ho Hops].
  apply IH; auto. apply step_cache_inv; auto.
  destruct (is_close o); [discriminate | reflexivity].
Qed.

Lemma step_out_length rs o :
  List.length (rs_out (step E rs o)) =
  List.length (rs_out rs) + match o with Get => 1 | _ => 0 end.
Proof.
  destruct o; simpl; try (destruct (memory_file (rs_self rs)); simpl; lia).
  destruct (get_memory_file E (rs_self rs) (rs_state rs)) as [[e|[self' r]] s'];
    simpl; rewrite length_app; reflexivity.
Qed.

Lemma run_out_length ops :
  forall rs,
    List.length (rs_out (run E ops rs)) = List.length (rs_out rs) + gets ops.
Proof.
  unfold run, gets.
  induction ops as [|o ops IH]; intros rs; simpl; [lia|].
  rewrite IH, step_out_length. destruct o; simpl; lia.
Qed.

End Cache.

(** C9: on an extractor whose path names a readable file, and whose
    buffer the caller reads and repositions but does not close, the
    file is read from disk at most once, by the first call of
    [get_memory_file]; every call, the first included, returns the same
    buffer object holding the file's bytes and positioned at offset 0; and
    once set the cached buffer stays set. *)
Theorem memory_file_read_once_and_rewound
    (E : env) (path : str) (data : list N) (ops : list op) (s : state) :
  fs s path = File data ->
  forallb (fun o => negb (is_close o)) ops = true ->
  let rs := run E ops (RunState (Handler path None) s []) in
  disk_reads path (trace (rs_state rs)) <= disk_reads path (trace s) + 1 /\
  List.length (rs_out rs) = gets ops /\
  exists r,
    Forall (fun o => o = inr (r, BytesIO data 0 false)) (rs_out rs) /\
    (0 < gets ops ->
     rs_self rs = Handler path (Some r) /\
     disk_reads path (trace (rs_state rs)) = disk_reads path (trace s) + 1).
Proof.
  intros Hfs Hops rs.
  assert (Hinv : cache_inv path data (disk_reads path (trace s)) rs).
  { apply run_cache_inv; auto. constructor; auto. }
  assert (Hlen : List.length (rs_out rs) = gets ops).
  { subst rs. rewrite run_out_length. reflexivity. }
  destruct Hinv as [s' Hfs' Hreads | s' r k outs Hfs' Hreads Hr Hb Houts];
    simpl in *.
  - repeat split; try lia. exists 0. split; [constructor | lia].
  - repeat split; try lia. exists r. split; [exact Houts|].
    intros _. split; [reflexivity | lia].
Qed.

Lemma memory_file_read_once_and_rewound_witness :
  disk_reads (lit "/docs/report.pdf")
    (trace (rs_state (run (sample_env (inr []) (inr []))
                        [Get; CallerRead 3; Get; CallerSeek 2; Get]
                        (RunState sample_handler sample_state [])))) <= 0 + 1 /\
  List.length (rs_out (run (sample_env (inr []) (inr []))
                         [Get; CallerRead 3; Get; CallerSeek 2; Get]
                         (RunState sample_handler sample_state []))) = 3.
Proof.
  destruct (@memory_file_read_once_and_rewound (sample_env (inr []) (inr []))
              (lit "/docs/report.pdf") [37; 80; 68; 70]%N
              [Get; CallerRead 3; Get; CallerSeek 2; Get] sample_state
              eq_refl eq_refl) as (Hreads & Hlen & _).
  split; [exact Hreads | exact Hlen].
Defined.

(** C9 as stated fails where a call cannot return the buffer. Once the
    caller has closed the buffer handed out, the next call raises
    [ValueError] instead of returning it. And the extractor of a file
    that exists but cannot be opened for reading is built without error,
    and its calls raise the error of [open], each one trying the file
    again. *)
Lemma get_memory_file_call_raises :
  (rs_out (run (sample_env (inr []) (inr [])) [Get; CallerClose; Get]
             (RunState sample_handler sample_state []))
   = [inr (0, BytesIO [37; 80; 68; 70]%N 0 false);
      inl (Exn ValueError (lit "I/O operation on closed file."))])
  /\
  (fst (__init__ (lit "/docs/sealed.pdf") (State sealed_fs [] [] []))
   = inr (Handler (lit "/docs/sealed.pdf") None))
  /\
  (rs_out (run (Env (fun _ => inr []) (fun _ => inr [])
                  (fun _ => Exn PermissionError (lit "[Errno 13] Permission denied"))
                  (fun _ => None) (fun _ => Exn UnicodeEncodeError []))
             [Get; Get]
             (RunState (Handler (lit "/docs/sealed.pdf") None)
                (State sealed_fs [] [] []) []))
   = [inl (Exn PermissionError (lit "[Errno 13] Permission denied"));
      inl (Exn PermissionError (lit "[Errno 13] Permission denied"))]).
Proof. repeat split. Qed.

(** ** Saving *)

(** C10: called without content on a document whose Markdown extraction
    fails, [save_markdown_to_file] returns normally; where the output
    path can be opened for writing and the error text can be encoded, the
    file at the output path then holds the error text returned by
    [extract_markdown_content], and the log ends with the extraction
    error followed by the message of a successful save. *)
Theorem save_markdown_writes_error_text
    (E : env) (self : handler) (output_path : str) (cleaned : bool)
    (start end_ : option str) (e : exn) (bytes : list N) (s : state) :
  to_markdown E (pdf_path self) = inl e ->
  open_write_fault E output_path = None ->
  utf8 (extraction_error e) = Some bytes ->
  let r := save_markdown_to_file E self output_path None cleaned start end_ s in
  fst r = inr tt /\
  fst (extract_markdown_content E self cleaned start end_ s)
    = inr (extraction_error e) /\
  fs (snd r) output_path = File bytes /\
  (forall q, q <> output_path -> fs (snd r) q = fs s q) /\
  log (snd r) =
    log s ++ [(ERROR, extraction_error e);
              (INFO, lit "Markdown file saved successfully: " ++ output_path)] /\
  trace (snd r) =
    trace s ++ [IoEngine (pdf_path self); IoOpenWrite output_path;
                IoWrite output_path].
Proof.
  intros Hmd Hopen Henc r. subst r.
  unfold save_markdown_to_file, extract_markdown_content, extract_markdown_try,
    engine_markdown, write_text, catch, bind, emit, logger, set_file, ret, raise.
  unfold extraction_error in *.
  rewrite Hmd. cbv beta iota. rewrite Hopen. cbv beta iota.
  cbn [fs heap log trace]. rewrite Henc. cbn [fst snd fs heap log trace].
  repeat split.
  - rewrite eqb_refl. reflexivity.
  - intros q Hq. destruct (PyStr.eqb q output_path) eqn:Heq; auto.
    apply eqb_eq in Heq. contradiction.
  - rewrite <- app_assoc. reflexivity.
  - rewrite <- !app_assoc. reflexivity.
Qed.

Lemma save_markdown_writes_error_text_witness :
  fst (save_markdown_to_file
         (sample_env (inl (Exn OtherException (lit "bad"))) (inr []))
         sample_handler (lit "/out/report.md") None false None None sample_state)
    = inr tt /\
  fs (snd (save_markdown_to_file
             (sample_env (inl (Exn OtherException (lit "bad"))) (inr []))
             sample_handler (lit "/out/report.md") None false None None
             sample_state))
     (lit "/out/report.md")
    = File (lit "An error occurred while extracting content: bad").
Proof.
  destruct (@save_markdown_writes_error_text
              (sample_env (inl (Exn OtherException (lit "bad"))) (inr []))
              sample_handler (lit "/out/report.md") false None None
              (Exn OtherException (lit "bad"))
              (lit "An error occurred while extracting content: bad")
              sample_state eq_refl eq_refl eq_refl) as (Hr & _ & Hfs & _).
  split; [exact Hr | exact Hfs].
Defined.

(** ** Heading promotion *)

Lemma set_nth_middle {A} (done : list A) x y todo :
  set_nth (List.length done) x (done ++ y :: todo) = done ++ x :: todo.
Proof. induction done; simpl; congruence. Qed.

Lemma promote_headings_from todo :
  forall done,
    fold_left promote_at (seq (List.length done) (List.length todo)) (done ++ todo)
    = done ++ map promote_line todo.
Proof.
  induction todo as [|l todo IH]; intros done; simpl; auto.
  assert (Hstep : promote_at (done ++ l :: todo) (List.length done)
                  = (done ++ [promote_line l]) ++ todo).
  { unfold promote_at, promote_line. rewrite nth_middle.
    destruct (re_match heading_re l).
    - rewrite set_nth_middle, <- app_assoc. reflexivity.
    - rewrite <- app_assoc. reflexivity. }
  rewrite Hstep.
  replace (S (List.length done)) with (List.length (done ++ [promote_line l]))
    by (rewrite length_app; simpl; lia).
  rewrite IH, <- app_assoc. reflexivity.
Qed.

(** The loop over the indices is a map over the lines: a line that the
    heading pattern does not match stays as it is. *)
Lemma promote_headings_map lines : promote_headings lines = map promote_line lines.
Proof. exact (promote_headings_from lines []). Qed.

Lemma reps_intro x w :
  forall p t g,
    forallb (cls_match x) w = true ->
    reps x (List.length w) (MState p (w ++ t) g) (MState (p + List.length w) t g).
Proof.
  induction w as [|c w IH]; intros p t g H; simpl in *.
  - rewrite Nat.add_0_r. constructor.
  - apply andb_true_iff in H. destruct H as [Hc Hw].
    constructor; [exact Hc|].
    replace (p + S (List.length w)) with (S p + List.length w) by lia.
    apply IH, Hw.
Qed.

Lemma matches_word_intro d :
  forall p t g,
    matches (word d) (MState p (d ++ t) g) (MState (p + List.length d) t g).
Proof.
  induction d as [|c d IH]; intros p t g.
  - simpl. rewrite Nat.add_0_r. constructor.
  - assert (Hone : matches (One (Lit c)) (MState p (c :: d ++ t) g)
                     (MState (S p) (d ++ t) g))
      by (constructor; apply N.eqb_refl).
    destruct d as [|c' d].
    + simpl. replace (p + 1) with (S p) by lia. exact Hone.
    + change (word (c :: c' :: d)) with (Cat (One (Lit c)) (word (c' :: d))).
      apply M_Cat with (st1 := MState (S p) ((c' :: d) ++ t) g); [exact Hone|].
      replace (p + List.length (c :: c' :: d))
        with (S p + List.length (c' :: d)) by (simpl; lia).
      apply IH.
Qed.

Lemma lstrip_by_all q x y : forallb q x = true -> lstrip_by q (x ++ y) = lstrip_by q y.
Proof.
  induction x as [|c x IH]; simpl; auto.
  intros H. apply andb_true_iff in H. destruct H as [Hc Hx].
  rewrite Hc. apply IH, Hx.
Qed.

Lemma forallb_rev {A} (q : A -> bool) l : forallb q (rev l) = forallb q l.
Proof.
  induction l as [|c l IH]; simpl; auto.
  rewrite forallb_app, IH. simpl. rewrite andb_true_r. apply andb_comm.
Qed.

Lemma last_in {A} (l : list A) d : l <> [] -> In (last l d) l.
Proof.
  intros H. rewrite (app_removelast_last d H) at 2.
  apply in_or_app. right. left. reflexivity.
Qed.

Lemma spaces_are_space sp :
  forallb (fun c => N.eqb c 32) sp = true -> forallb (cls_match Space) sp = true.
Proof.
  intros H. rewrite forallb_forall in *. intros c Hc.
  specialize (H c Hc). apply N.eqb_eq in H. subst c. reflexivity.
Qed.

Lemma spaces_are_stripped sp :
  forallb (fun c => N.eqb c 32) sp = true -> forallb (mem (lit " *")) sp = true.
Proof.
  intros H. rewrite forallb_forall in *. intros c Hc.
  specialize (H c Hc). apply N.eqb_eq in H. subst c. reflexivity.
Qed.

(** The heading pattern matches a bold span between runs of spaces. *)
Lemma heading_re_matches sp1 h sp2 :
  forallb (fun c => N.eqb c 32) sp1 = true ->
  forallb (fun c => N.eqb c 32) sp2 = true ->
  h <> [] ->
  forallb (fun c => negb (N.eqb c 42)) h = true ->
  re_match heading_re (sp1 ++ lit "**" ++ h ++ lit "**" ++ sp2) <> None.
Proof.
  intros H1 H2 Hne Hstar. unfold re_match.
  apply match_at_complete
    with (st := MState (0 + List.length sp1 + 2 + List.length h + 2 + List.length sp2)
                  [] []).
  unfold heading_re.
  eapply M_Cat; [apply M_Bol; reflexivity|].
  eapply M_Cat.
  { eapply M_Rep; [apply Nat.le_0_l|].
    apply reps_intro, spaces_are_space, H1. }
  eapply M_Cat; [apply (matches_word_intro (lit "**"))|].
  eapply M_Cat.
  { eapply M_Rep with (n := List.length h);
      [destruct h; [congruence | simpl; lia]|].
    apply reps_intro. exact Hstar. }
  eapply M_Cat; [apply (matches_word_intro (lit "**"))|].
  eapply M_Cat.
  { eapply M_Rep; [apply Nat.le_0_l|].
    rewrite <- (app_nil_r sp2) at 1.
    apply reps_intro, spaces_are_space, H2. }
  apply M_Eol. left. reflexivity.
Qed.

(** A bold span between runs of plain spaces, its text free of stars and
    neither starting nor ending with a space, is replaced by "## " and
    the text. *)
Lemma heading_between_spaces sp1 h sp2 :
  forallb (fun c => N.eqb c 32) sp1 = true ->
  forallb (fun c => N.eqb c 32) sp2 = true ->
  h <> [] ->
  forallb (fun c => negb (N.eqb c 42)) h = true ->
  hd 0%N h <> 32%N -> last h 0%N <> 32%N ->
  promote_line (sp1 ++ lit "**" ++ h ++ lit "**" ++ sp2) = lit "## " ++ h.
Proof.
  intros H1 H2 Hne Hstar Hhd Hlast. unfold promote_line.
  pose proof (heading_re_matches sp1 sp2 H1 H2 Hne Hstar) as Hm.
  destruct (re_match heading_re _); [|congruence]. f_equal.
  assert (Hkeep : forall c, In c h -> c <> 32%N -> mem (lit " *") c = false).
  { intros c Hc H32. rewrite forallb_forall in Hstar. specialize (Hstar c Hc).
    cbn. apply N.eqb_neq in H32. rewrite H32.
    destruct (N.eqb c 42); [discriminate | reflexivity]. }
  unfold strip_chars, strip_by.
  rewrite lstrip_by_all by (apply spaces_are_stripped, H1).
  change (lit "**" ++ h ++ lit "**" ++ sp2)
    with ([42; 42]%N ++ h ++ lit "**" ++ sp2).
  rewrite lstrip_by_all by reflexivity.
  destruct h as [|c h']; [congruence|].
  cbn [app lstrip_by]. rewrite (Hkeep c (or_introl eq_refl) Hhd).
  unfold rstrip_by.
  change (c :: h' ++ lit "**" ++ sp2) with ((c :: h') ++ lit "**" ++ sp2).
  rewrite !rev_app_distr, <- app_assoc.
  rewrite lstrip_by_all
    by (rewrite forallb_rev; apply spaces_are_stripped, H2).
  rewrite lstrip_by_all by reflexivity.
  rewrite (app_removelast_last 0%N (l := c :: h')) at 1 by discriminate.
  rewrite rev_app_distr. cbn [rev app lstrip_by].
  rewrite Hkeep; [|apply last_in|exact Hlast].
  - cbn [rev]. rewrite rev_involutive.
    symmetry. apply app_removelast_last. discriminate.
  - discriminate.
Qed.

(** A bold line between spaces becomes a heading of level 2. *)
Example heading_between_spaces_promoted :
  _format_markdown_content (lit "intro" ++ [NL] ++ lit "  **Heading**  " ++ [NL] ++ lit "text")
  = lit "intro" ++ [NL] ++ lit "## Heading" ++ [NL] ++ lit "text".
Proof. reflexivity. Qed.

(** C5 at a line whose bold span follows a tab: the pattern matches, for
    [\s] takes the tab, but [strip(' *')] removes only spaces and stars,
    so the tab and the opening markers stay. *)
Theorem heading_after_tab_keeps_markers :
  re_match heading_re (9%N :: lit "**Heading**") <> None /\
  _format_markdown_content (9%N :: lit "**Heading**")
    = lit "## " ++ 9%N :: lit "**Heading" /\
  _format_markdown_content (9%N :: lit "**Heading**") <> lit "## Heading".
Proof. vm_compute. repeat split; discriminate. Qed.

(** C1 as stated fails for an empty end marker: the empty string occurs
    at the index of the start marker, so the span between the two is
    empty, yet both extractions return the content from the start marker
    to its end. *)
Lemma empty_end_marker_selects_to_end :
  first_at (lit "A x") (lit "A") 0 0 /\
  first_at (lit "A x") [] 0 0 /\
  strip (firstn (0 - 0) (skipn 0 (lit "A x"))) = [] /\
  fst (extract_markdown_content (sample_env (inr (lit "A x")) (inr []))
         sample_handler false (Some (lit "A")) (Some []) sample_state)
    = inr (lit "A x") /\
  fst (extract_text_content (sample_env (inr []) (inr [inr (lit "A x")]))
         sample_handler (Some (lit "A")) (Some []) sample_state)
    = inr (VStr (lit "A x")) /\
  fst (extract_text_content (sample_env (inr []) (inr [inr (lit "A x")]))
         sample_handler (Some (lit "A")) (Some []) sample_state)
    <> inr (VStr (strip (firstn (0 - 0) (skipn 0 (lit "A x"))))).
Proof.
  split; [apply first_atb_true; reflexivity|].
  split; [apply first_atb_true; reflexivity|].
  split; [reflexivity|]. split; [reflexivity|]. split; [reflexivity|].
  discriminate.
Qed.

(** ** Image references *)

Lemma if_is_some (b : bool) (o : option mstate) :
  is_some (if b then o else None) = b && is_some o.
Proof. destruct b; reflexivity. Qed.

Lemma rep_lazy_0 x k p g s :
  rep false x 0 k p g s =
  orelse (k (MState p s g))
    match s with
    | c :: s' => if cls_match x c then rep false x 0 k (S p) g s' else None
    | [] => None
    end.
Proof. destruct s; reflexivity. Qed.

Lemma is_some_orelse a b : is_some (orelse a b) = is_some a || is_some b.
Proof. destruct a; reflexivity. Qed.

Lemma rep_close_scan p0 :
  forall s p g,
    is_some (rep false Dot 0 (m (word (lit ")")) (accept false p0)) p g s)
    = has_close s.
Proof.
  induction s as [|c s IH]; intros p g; rewrite rep_lazy_0, is_some_orelse.
  - reflexivity.
  - rewrite (if_is_some (cls_match Dot c)), IH. cbn.
    destruct (N.eqb c 41); reflexivity.
Qed.

Lemma rep_mid_scan p0 :
  forall s p g,
    is_some (rep false Dot 0
               (m (Cat (word (lit "](")) (Cat (Rep false 0 Dot) (word (lit ")"))))
                  (accept false p0)) p g s)
    = has_mid s.
Proof.
  induction s as [|c s IH]; intros p g; rewrite rep_lazy_0, is_some_orelse.
  - reflexivity.
  - rewrite (if_is_some (cls_match Dot c)), IH. cbn [has_mid].
    f_equal. cbn. destruct (N.eqb c 93); [|reflexivity].
    destruct s as [|d s']; [reflexivity|]. cbn.
    destruct (N.eqb d 40); [|reflexivity].
    apply (rep_close_scan p0 s' (S (S p)) g).
Qed.

(** The matcher finds an image at the head of [s] exactly when the scan
    does, at whatever position. *)
Lemma image_match_scan p s :
  is_some (match_at image_re false p s) = image_here s.
Proof.
  unfold match_at. fold (accept false p).
  destruct s as [|c [|d t]]; cbn.
  - reflexivity.
  - destruct (N.eqb c 33); reflexivity.
  - destruct (N.eqb c 33); [|reflexivity].
    destruct (N.eqb d 91); [|reflexivity].
    apply (rep_mid_scan p t (S (S p)) []).
Qed.

Lemma search_image_scan : forall s p, search_from image_re p s = any_image s.
Proof.
  induction s as [|c s IH]; intros p; cbn [search_from any_image];
    rewrite image_match_scan; [reflexivity|].
  rewrite IH. reflexivity.
Qed.

(** A match of the image pattern is never empty. *)
Lemma image_match_advances adv p s st :
  match_at image_re adv p s = Some st -> p < pos st.
Proof.
  intros H. apply match_at_sound in H. destruct H as [H _].
  apply matches_cat_inv in H. destruct H as (st1 & H1 & H2).
  apply matches_word in H1. apply matches_span in H2.
  destruct H1 as (_ & Hp1 & _). destruct H2 as (w & _ & Hp2).
  simpl in *. lia.
Qed.

Lemma clean_nil p : clean p 0 [] = [].
Proof. reflexivity. Qed.

Lemma clean_skip p n c s : clean p (S n) (c :: s) = clean (S p) n s.
Proof. reflexivity. Qed.

Lemma clean_keep p c s :
  image_here (c :: s) = false -> clean p 0 (c :: s) = c :: clean (S p) 0 s.
Proof.
  intros H. unfold clean. cbn [sub_go].
  rewrite <- (image_match_scan p) in H.
  destruct (match_at image_re false p (c :: s)); [discriminate | reflexivity].
Qed.

Lemma clean_drop p c s :
  image_here (c :: s) = true -> exists n, clean p 0 (c :: s) = clean (S p) n s.
Proof.
  intros H. unfold clean. cbn [sub_go].
  rewrite <- (image_match_scan p) in H.
  destruct (match_at image_re false p (c :: s)) as [st|] eqn:Hm; [|discriminate].
  apply image_match_advances in Hm.
  destruct (Nat.eqb (pos st) p) eqn:Hp; [apply Nat.eqb_eq in Hp; lia|].
  simpl. eauto.
Qed.

(** The scans look no further than the line they start in, and do not
    mind what is put before them on that line. *)
Lemma has_close_cons c s : N.eqb c NL = false -> has_close s = true -> has_close (c :: s) = true.
Proof. intros Hc Hs. cbn. rewrite Hc, Hs. apply orb_true_r. Qed.

Lemma has_mid_cons c s : N.eqb c NL = false -> has_mid s = true -> has_mid (c :: s) = true.
Proof. intros Hc Hs. cbn [has_mid]. rewrite Hc, Hs. apply orb_true_r. Qed.

Lemma has_mid_close : forall s, has_mid s = true -> has_close s = true.
Proof.
  induction s as [|c s IH]; cbn [has_mid has_close]; [discriminate|].
  intros H. apply orb_true_iff in H. destruct H as [H | H].
  - apply andb_true_iff in H. destruct H as [Hc H].
    destruct s as [|d s']; [discriminate|].
    apply andb_true_iff in H. destruct H as [Hd H].
    apply N.eqb_eq in Hc, Hd. subst. cbn. rewrite H. reflexivity.
  - apply andb_true_iff in H. destruct H as [Hc H].
    rewrite Hc, (IH H). apply orb_true_r.
Qed.

Lemma image_here_mid s : image_here s = true -> has_mid s = true.
Proof.
  destruct s as [|c [|d t]]; cbn [image_here]; try discriminate.
  rewrite !andb_true_iff, !N.eqb_eq. intros [[-> ->] H].
  apply has_mid_cons; [reflexivity|]. apply has_mid_cons; [reflexivity|]. exact H.
Qed.

(** Removing images from a text creates neither a closing parenthesis
    ahead nor a "](" with one ahead: what the scan finds in the cleaned
    text it finds in the text. *)
Lemma clean_has_close :
  forall s p, has_close (clean p 0 s) = true -> has_close s = true.
Proof.
  induction s as [|c s IH]; intros p; [auto|].
  destruct (image_here (c :: s)) eqn:Hi.
  - intros _. apply has_mid_close, image_here_mid, Hi.
  - rewrite (clean_keep p _ _ Hi). cbn [has_close].
    destruct (N.eqb c 41); [reflexivity|].
    destruct (N.eqb c NL); simpl; [discriminate|]. apply IH.
Qed.

Lemma clean_has_mid :
  forall s p, has_mid (clean p 0 s) = true -> has_mid s = true.
Proof.
  induction s as [|c s IH]; intros p; [auto|].
  destruct (image_here (c :: s)) eqn:Hi.
  - intros _. apply image_here_mid, Hi.
  - rewrite (clean_keep p _ _ Hi). intros H. cbn [has_mid] in H.
    apply orb_true_iff in H. destruct H as [H | H].
    + apply andb_true_iff in H. destruct H as [Hc H].
      apply N.eqb_eq in Hc. subst c.
      destruct s as [|d s']; [discriminate|].
      destruct (image_here (d :: s')) eqn:Hi2.
      * (* an image starts right after the bracket *)
        apply has_mid_cons; [reflexivity|]. apply image_here_mid, Hi2.
      * rewrite (clean_keep (S p) _ _ Hi2) in H.
        apply andb_true_iff in H. destruct H as [Hd H].
        apply clean_has_close in H.
        cbn [has_mid]. rewrite Hd, H. reflexivity.
    + apply andb_true_iff in H. destruct H as [Hc H].
      apply has_mid_cons; [destruct (N.eqb c NL); [discriminate | reflexivity]|].
      exact (IH _ H).
Qed.

Lemma bang_before_image_scan : forall s p, bang_before_image p s = bang_image s.
Proof.
  induction s as [|c s IH]; intros p; cbn [bang_before_image bang_image]; auto.
  rewrite image_match_scan, IH. reflexivity.
Qed.

(** Where no exclamation mark stands directly before an image, the text
    left after removal holds no image. *)
Lemma clean_no_image :
  forall s p skip, bang_image s = false -> any_image (clean p skip s) = false.
Proof.
  induction s as [|c s IH]; intros p skip Hb.
  - unfold clean. cbn [sub_go].
    destruct (match_at image_re false p []); reflexivity.
  - cbn [bang_image] in Hb. apply orb_false_iff in Hb. destruct Hb as [Hc Hb].
    destruct skip as [|n]; [|rewrite clean_skip; apply IH, Hb].
    destruct (image_here (c :: s)) eqn:Hi.
    + destruct (clean_drop p _ _ Hi) as [n ->]. apply IH, Hb.
    + rewrite (clean_keep p _ _ Hi). cbn [any_image].
      rewrite (IH (S p) 0 Hb), orb_false_r.
      destruct (image_here (c :: clean (S p) 0 s)) eqn:Hout; [|reflexivity].
      exfalso.
      destruct s as [|d s2]; [cbn in Hout; discriminate|].
      destruct (N.eqb c 33) eqn:Hc33.
      2:{ cbn [image_here] in Hout. destruct (clean (S p) 0 (d :: s2));
          [discriminate|]. rewrite Hc33 in Hout. discriminate. }
      simpl in Hc. rewrite (clean_keep (S p) _ _ Hc) in Hout.
      cbn [image_here] in Hout, Hi. rewrite Hc33 in Hout, Hi.
      destruct (N.eqb d 91); [|discriminate]. simpl in Hout, Hi.
      apply clean_has_mid in Hout. congruence.
Qed.

(** Images and the structure of a text: suffixes, prefixes and lines. *)
Lemma has_close_app s z : has_close s = true -> has_close (s ++ z) = true.
Proof.
  induction s as [|c s IH]; cbn [has_close app]; [discriminate|].
  intros H. apply orb_true_iff in H. destruct H as [H | H].
  - rewrite H. reflexivity.
  - apply andb_true_iff in H. destruct H as [Hc H].
    rewrite Hc, (IH H). apply orb_true_r.
Qed.

Lemma has_mid_app s z : has_mid s = true -> has_mid (s ++ z) = true.
Proof.
  induction s as [|c s IH]; cbn [has_mid app]; [discriminate|].
  intros H. apply orb_true_iff in H. destruct H as [H | H].
  - apply andb_true_iff in H. destruct H as [Hc H]. rewrite Hc.
    destruct s as [|d s']; [discriminate|].
    apply andb_true_iff in H. destruct H as [Hd H].
    cbn [app]. rewrite Hd, (has_close_app _ z H). reflexivity.
  - apply andb_true_iff in H. destruct H as [Hc H].
    rewrite Hc, (IH H). apply orb_true_r.
Qed.

Lemma image_here_app s z : image_here s = true -> image_here (s ++ z) = true.
Proof.
  destruct s as [|c [|d t]]; cbn [image_here app]; try discriminate.
  rewrite !andb_true_iff. intros [Hcd H]. split; auto. apply has_mid_app, H.
Qed.

Lemma any_image_suffix x s : any_image (x ++ s) = false -> any_image s = false.
Proof.
  induction x as [|c x IH]; cbn [app]; auto.
  intros H. cbn [any_image] in H. apply orb_false_iff in H. apply IH, H.
Qed.

Lemma any_image_prefix s z : any_image (s ++ z) = false -> any_image s = false.
Proof.
  induction s as [|c s IH]; [reflexivity|].
  cbn [app any_image]. intros H. apply orb_false_iff in H. destruct H as [Hh Ht].
  rewrite (IH Ht), orb_false_r.
  destruct (image_here (c :: s)) eqn:Hi; [|reflexivity].
  apply (image_here_app _ z) in Hi. cbn [app] in Hi. congruence.
Qed.

(** The scans stop at a newline. *)
Lemma has_close_line s r : has_close (s ++ NL :: r) = has_close s.
Proof.
  induction s as [|c s IH]; cbn [has_close app]; [reflexivity|].
  rewrite IH. reflexivity.
Qed.

Lemma has_mid_line s r : has_mid (s ++ NL :: r) = has_mid s.
Proof.
  induction s as [|c s IH]; cbn [has_mid app]; [reflexivity|].
  rewrite IH. f_equal. f_equal.
  destruct s as [|d s']; cbn [app]; [reflexivity|].
  rewrite has_close_line. reflexivity.
Qed.

Lemma image_here_line s r : image_here (s ++ NL :: r) = image_here s.
Proof.
  destruct s as [|c [|d t]]; cbn [image_here app].
  - destruct r; reflexivity.
  - destruct (N.eqb c 33); reflexivity.
  - rewrite has_mid_line. reflexivity.
Qed.

Lemma any_image_line s r : any_image (s ++ NL :: r) = any_image s || any_image r.
Proof.
  induction s as [|c s IH]; cbn [app].
  - cbn [any_image]. change (image_here (NL :: r)) with (image_here ([] ++ NL :: r)).
    rewrite image_here_line. reflexivity.
  - cbn [any_image]. change (c :: s ++ NL :: r) with ((c :: s) ++ NL :: r).
    rewrite image_here_line, IH, orb_assoc. reflexivity.
Qed.

Lemma any_image_join ls :
  any_image (join [NL] ls) = existsb any_image ls.
Proof.
  induction ls as [|l ls IH]; [reflexivity|].
  destruct ls as [|l2 ls].
  - cbn. rewrite orb_false_r. reflexivity.
  - change (join [NL] (l :: l2 :: ls)) with (l ++ [NL] ++ join [NL] (l2 :: ls)).
    cbn [app]. rewrite any_image_line, IH. reflexivity.
Qed.

Lemma join_split : forall s, join [NL] (split NL s) = s.
Proof.
  induction s as [|c s IH]; [reflexivity|].
  cbn [split]. destruct (N.eqb c NL) eqn:Hc.
  - apply N.eqb_eq in Hc. subst c.
    destruct (split NL s) as [|l ls] eqn:Hs.
    + cbn in IH. subst s. discriminate.
    + change (join [NL] ([] :: l :: ls)) with ([] ++ [NL] ++ join [NL] (l :: ls)).
      rewrite IH. reflexivity.
  - destruct (split NL s) as [|l ls] eqn:Hs.
    + cbn in IH. subst s. discriminate.
    + destruct ls as [|l2 ls].
      * cbn in IH. subst s. reflexivity.
      * change (join [NL] ((c :: l) :: l2 :: ls))
          with (c :: (l ++ [NL] ++ join [NL] (l2 :: ls))).
        change (join [NL] (l :: l2 :: ls))
          with (l ++ [NL] ++ join [NL] (l2 :: ls)) in IH.
        rewrite IH. reflexivity.
Qed.

Lemma lstrip_by_suffix q : forall s, exists x, s = x ++ lstrip_by q s.
Proof.
  induction s as [|c s [x Hx]]; [exists []; reflexivity|].
  cbn [lstrip_by]. destruct (q c).
  - exists (c :: x). cbn [app]. congruence.
  - exists []. reflexivity.
Qed.

Lemma rstrip_by_prefix q s : exists z, s = rstrip_by q s ++ z.
Proof.
  unfold rstrip_by. destruct (lstrip_by_suffix q (rev s)) as [x Hx].
  exists (rev x). rewrite <- rev_app_distr, <- Hx, rev_involutive. reflexivity.
Qed.

Lemma any_image_strip_by q s : any_image s = false -> any_image (strip_by q s) = false.
Proof.
  intros H. unfold strip_by.
  destruct (lstrip_by_suffix q s) as [x Hx]. rewrite Hx in H.
  apply any_image_suffix in H.
  destruct (rstrip_by_prefix q (lstrip_by q s)) as [z Hz]. rewrite Hz in H.
  apply any_image_prefix in H. exact H.
Qed.

Lemma any_image_slice s a b : any_image s = false -> any_image (slice s a b) = false.
Proof.
  intros H. unfold slice.
  set (k := Z.to_nat (clamp (Z.of_nat (List.length s)) a)).
  set (n := Z.to_nat _).
  rewrite <- (firstn_skipn k s) in H. apply any_image_suffix in H.
  rewrite <- (firstn_skipn n (skipn k s)) in H. apply any_image_prefix in H.
  exact H.
Qed.

Lemma any_image_heading y : any_image (lit "## " ++ y) = any_image y.
Proof. destruct y; reflexivity. Qed.

Lemma any_image_promote_line l : any_image l = false -> any_image (promote_line l) = false.
Proof.
  intros H. unfold promote_line. destruct (re_match heading_re l); [|exact H].
  rewrite any_image_heading. apply any_image_strip_by, H.
Qed.

Lemma any_image_format s :
  any_image s = false -> any_image (_format_markdown_content s) = false.
Proof.
  intros H. rewrite format_is_promotion.
  rewrite promote_headings_map, any_image_join.
  rewrite <- (join_split s), any_image_join in H.
  induction (split NL s) as [|l ls IH]; [reflexivity|].
  cbn [existsb map] in *. apply orb_false_iff in H. destruct H as [Hl Hls].
  rewrite (any_image_promote_line _ Hl), (IH Hls). reflexivity.
Qed.

(** Whatever the markers, the selection returns a part of the content. *)
Lemma select_no_image content start end_ s :
  any_image content = false ->
  exists out s', select content start end_ s = (inr out, s') /\
                 any_image out = false.
Proof.
  intros H. unfold select.
  destruct (truthy start || truthy end_); [|eexists; eexists; split; [reflexivity | exact H]].
  cbv zeta. destruct (_ || _).
  - eexists; eexists; split; [reflexivity|]. apply any_image_strip_by, H.
  - eexists; eexists; split; [reflexivity|].
    apply any_image_strip_by, any_image_slice, H.
Qed.

(** C6, as the code has it: when the Markdown of the document has no
    exclamation mark directly before an image reference, the cleaned
    extraction returns a text in which the image pattern matches nowhere,
    whatever markers are passed. *)
Theorem cleaned_markdown_has_no_image
    (E : env) (self : handler) (md : str) (start end_ : option str) (s : state) :
  to_markdown E (pdf_path self) = inr md ->
  bang_before_image 0 md = false ->
  exists out,
    fst (extract_markdown_content E self true start end_ s) = inr out /\
    has_image out = false.
Proof.
  intros Hmd Hbang. rewrite bang_before_image_scan in Hbang.
  assert (Hp : any_image (processed true md) = false).
  { unfold processed. apply any_image_format.
    apply (clean_no_image md 0 0 Hbang). }
  unfold extract_markdown_content, catch.
  erewrite extract_markdown_try_select by eassumption.
  destruct (@select_no_image (processed true md) start end_
              (traced s (IoEngine (pdf_path self))) Hp)
    as (out & s' & -> & Hout).
  exists out. split; [reflexivity|].
  unfold has_image. rewrite search_image_scan. exact Hout.
Qed.

Lemma cleaned_markdown_has_no_image_witness :
  exists out,
    fst (extract_markdown_content
           (sample_env (inr (lit "See ![fig](a.png) and ![](b.png)!")) (inr []))
           sample_handler true None None sample_state) = inr out /\
    has_image out = false.
Proof.
  apply (@cleaned_markdown_has_no_image
           (sample_env (inr (lit "See ![fig](a.png) and ![](b.png)!")) (inr []))
           sample_handler (lit "See ![fig](a.png) and ![](b.png)!")
           None None sample_state); reflexivity.
Defined.

(** C6 as stated fails where an exclamation mark stands before an image
    that a bracketed link follows: the image goes, and what is left
    around it reads as an image. *)
Lemma cleaned_markdown_keeps_formed_image :
  has_image (lit "!![a](b)[x](y)") = true /\
  fst (extract_markdown_content
         (sample_env (inr (lit "!![a](b)[x](y)")) (inr []))
         sample_handler true None None sample_state)
    = inr (lit "![x](y)") /\
  has_image (lit "![x](y)") = true.
Proof. repeat split. Qed.

(** * Further properties *)

(** ** Selection between markers *)

Lemma find_none_from s sub from :
  (forall j, from <= j -> ~ occurs_at s sub j) ->
  find s sub (Z.of_nat from) = (-1)%Z.
Proof.
  intros Hno. unfold find.
  destruct (Z.of_nat from <? 0)%Z eqn:Hneg; [apply Z.ltb_lt in Hneg; lia|].
  destruct (Z.of_nat (List.length s) <? Z.of_nat from)%Z eqn:Hbig; auto.
  apply Z.ltb_ge in Hbig. rewrite Nat2Z.id.
  pose proof (find_from_spec sub (skipn from s) from) as Hf.
  destruct (find_from sub (skipn from s) from) as [k|]; auto.
  exfalso. destruct Hf as (Hk & Hl & Hsk & _).
  rewrite length_skipn in Hl. rewrite skipn_skipn in Hsk.
  apply (Hno k Hk). apply occurs_at_iff. split; [lia|].
  replace k with (k - from + from) by lia. exact Hsk.
Qed.

Lemma truthy_some (a : str) : a <> [] -> truthy (Some a) = true.
Proof. destruct a; [congruence | reflexivity]. Qed.

Lemma first_at_bound s sub from i : first_at s sub from i -> i <= List.length s.
Proof. intros (_ & H & _). apply occurs_at_iff in H. tauto. Qed.

Lemma select_from_start (content a : str) end_ i s :
  a <> [] -> truthy end_ = false ->
  first_at content a 0 i ->
  select content (Some a) end_ s = (inr (strip (skipn i content)), s).
Proof.
  intros Ha He Hf. unfold select, the. cbv zeta.
  rewrite (truthy_some Ha), He. cbn [orb andb].
  rewrite (find_first Hf : find content a 0 = Z.of_nat i).
  destruct (Z.of_nat i =? -1)%Z eqn:Hi; [apply Z.eqb_eq in Hi; lia|].
  cbn [orb]. unfold ret.
  pose proof (first_at_bound Hf) as Hb.
  rewrite slice_within by lia.
  rewrite firstn_all2 by (rewrite length_skipn; lia). reflexivity.
Qed.

Lemma select_to_end_marker (content : str) start (b : str) j s :
  truthy start = false -> b <> [] ->
  first_at content b 0 j ->
  select content start (Some b) s = (inr (strip (firstn j content)), s).
Proof.
  intros Hs Hb Hf. unfold select, the. cbv zeta.
  rewrite (truthy_some Hb), Hs. cbn [orb andb].
  pose proof (find_first Hf) as Hfind. cbn [Z.of_nat] in Hfind. rewrite Hfind.
  destruct (Z.of_nat j =? -1)%Z eqn:Hj; [apply Z.eqb_eq in Hj; lia|].
  cbn [orb Z.eqb]. unfold ret.
  pose proof (first_at_bound Hf) as Hbd.
  pose proof (slice_within content (i := 0) (j := j)) as Hsl.
  cbn [Z.of_nat skipn] in Hsl. rewrite Hsl by lia.
  rewrite Nat.sub_0_r. reflexivity.
Qed.

Lemma select_end_not_after (content a b : str) i s :
  a <> [] -> first_at content a 0 i ->
  (forall j, i <= j -> ~ occurs_at content b j) ->
  select content (Some a) (Some b) s =
  (inr (strip content), logged s WARNING not_found_warning).
Proof.
  intros Ha Hf Hno.
  assert (Hb : b <> []).
  { intros ->. apply (Hno i (Nat.le_refl i)). apply occurs_at_iff.
    split; [apply (first_at_bound Hf) | reflexivity]. }
  unfold select, the. cbv zeta.
  rewrite (truthy_some Ha), (truthy_some Hb). cbn [orb andb].
  rewrite (find_first Hf : find content a 0 = Z.of_nat i).
  rewrite (find_none_from Hno). cbn [Z.eqb]. rewrite orb_true_r. reflexivity.
Qed.

Lemma select_nothing content start end_ s :
  truthy start = false -> truthy end_ = false ->
  select content start end_ s = (inr content, s).
Proof. intros Hs He. unfold select. rewrite Hs, He. reflexivity. Qed.

(** The selection returns, and changes nothing but the log. *)
Lemma select_effect content start end_ s :
  exists out s',
    select content start end_ s = (inr out, s') /\
    fs s' = fs s /\ heap s' = heap s /\ trace s' = trace s.
Proof.
  unfold select. destruct (truthy start || truthy end_).
  - cbv zeta. destruct (_ || _); eexists; eexists; split; try reflexivity; auto.
  - eexists; eexists; split; try reflexivity; auto.
Qed.

Section ExtractionRuns.

Variable E : env.
Variable self : handler.

(** With the engine's answer at hand, each extraction is the selection
    on that answer. *)
Lemma extract_markdown_content_select cleaned start end_ md s :
  to_markdown E (pdf_path self) = inr md ->
  extract_markdown_content E self cleaned start end_ s =
  select (processed cleaned md) start end_ (traced s (IoEngine (pdf_path self))).
Proof.
  intros Hmd. unfold extract_markdown_content, catch.
  erewrite extract_markdown_try_select by eassumption.
  destruct (select_effect (processed cleaned md) start end_
              (traced s (IoEngine (pdf_path self)))) as (out & s' & -> & _).
  reflexivity.
Qed.

Lemma extract_text_content_select start end_ texts s :
  pymupdf_open E (pdf_path self) = inr (map inr texts) ->
  extract_text_content E self start end_ s =
  bind (select (joined texts) start end_) (fun t => ret (VStr t))
    (traced s (IoEngine (pdf_path self))).
Proof.
  intros Hdoc. unfold extract_text_content, catch.
  erewrite extract_text_try_select by eassumption. unfold bind.
  destruct (select_effect (joined texts) start end_
              (traced s (IoEngine (pdf_path self)))) as (out & s' & -> & _).
  reflexivity.
Qed.

End ExtractionRuns.

Lemma infix_of_refl s : infix_of s s.
Proof. exists [], []. rewrite app_nil_r. reflexivity. Qed.

Lemma infix_of_trans a b c : infix_of a b -> infix_of b c -> infix_of a c.
Proof.
  intros (p1 & q1 & ->) (p2 & q2 & ->).
  exists (p2 ++ p1), (q1 ++ q2). rewrite <- !app_assoc. reflexivity.
Qed.

Lemma strip_by_infix q s : infix_of (strip_by q s) s.
Proof.
  unfold strip_by.
  destruct (lstrip_by_suffix q s) as [x Hx].
  destruct (rstrip_by_prefix q (lstrip_by q s)) as [z Hz].
  exists x, z. rewrite <- Hz. exact Hx.
Qed.

Lemma slice_infix s a b : infix_of (slice s a b) s.
Proof.
  unfold slice.
  set (k := Z.to_nat (clamp (Z.of_nat (List.length s)) a)).
  set (n := Z.to_nat _).
  exists (firstn k s), (skipn n (skipn k s)).
  rewrite (firstn_skipn n (skipn k s)), (firstn_skipn k s). reflexivity.
Qed.

Lemma lstrip_by_head q : forall s c t, lstrip_by q s = c :: t -> q c = false.
Proof.
  induction s as [|d s IH]; intros c t H; cbn [lstrip_by] in H; [discriminate|].
  destruct (q d) eqn:Hd; [exact (IH _ _ H)|].
  injection H as <- _. exact Hd.
Qed.

Lemma strip_by_ends q s :
  (forall c t, strip_by q s = c :: t -> q c = false) /\
  (forall t c, strip_by q s = t ++ [c] -> q c = false).
Proof.
  unfold strip_by. split.
  - intros c t H.
    destruct (rstrip_by_prefix q (lstrip_by q s)) as [z Hz].
    rewrite H in Hz. cbn [app] in Hz. exact (lstrip_by_head q s Hz).
  - intros t c H. unfold rstrip_by in H.
    apply (f_equal (@rev char)) in H.
    rewrite rev_involutive, rev_app_distr in H. cbn [rev app] in H.
    exact (lstrip_by_head q _ H).
Qed.

Lemma strip_trimmed s : trimmed (strip s).
Proof. apply strip_by_ends. Qed.

Lemma select_part content start end_ s out s' :
  select content start end_ s = (inr out, s') ->
  infix_of out content /\ (truthy start || truthy end_ = true -> trimmed out).
Proof.
  unfold select. destruct (truthy start || truthy end_).
  - cbv zeta. destruct (_ || _); intros H; injection H as <- _; split.
    + apply strip_by_infix.
    + intros _. apply strip_trimmed.
    + eapply infix_of_trans; [apply strip_by_infix | apply slice_infix].
    + intros _. apply strip_trimmed.
  - intros H. injection H as <- _. split; [apply infix_of_refl | discriminate].
Qed.

(** X1: with a start marker alone (no end marker, or an empty one), both
    extractions return the content from the first occurrence of the
    start marker to its end, stripped; nothing is logged. *)
Theorem extract_from_start_marker
    (E : env) (self : handler) (cleaned : bool) (md : str) (texts : list str)
    (a : str) (end_ : option str) (s : state) :
  a <> [] -> truthy end_ = false ->
  (to_markdown E (pdf_path self) = inr md ->
   forall i, first_at (processed cleaned md) a 0 i ->
     extract_markdown_content E self cleaned (Some a) end_ s =
     (inr (strip (skipn i (processed cleaned md))),
      traced s (IoEngine (pdf_path self))))
  /\
  (pymupdf_open E (pdf_path self) = inr (map inr texts) ->
   forall i, first_at (joined texts) a 0 i ->
     extract_text_content E self (Some a) end_ s =
     (inr (VStr (strip (skipn i (joined texts)))),
      traced s (IoEngine (pdf_path self)))).
Proof.
  intros Ha He. split.
  - intros Hmd i Hf. erewrite extract_markdown_content_select by eassumption.
    apply select_from_start; assumption.
  - intros Hdoc i Hf. erewrite extract_text_content_select by eassumption.
    unfold bind. erewrite select_from_start by eassumption. reflexivity.
Qed.

Lemma extract_from_start_marker_witness :
  extract_markdown_content (sample_text_env (lit "head BEGIN tail  "))
    sample_handler false (Some (lit "BEGIN")) None sample_state
  = (inr (lit "BEGIN tail"), traced sample_state (IoEngine (lit "/docs/report.pdf")))
  /\
  extract_text_content (sample_text_env (lit "head BEGIN tail  "))
    sample_handler (Some (lit "BEGIN")) (Some []) sample_state
  = (inr (VStr (lit "BEGIN tail")),
     traced sample_state (IoEngine (lit "/docs/report.pdf"))).
Proof.
  assert (Ha : lit "BEGIN" <> []) by discriminate.
  split.
  - apply (proj1 (@extract_from_start_marker
             (sample_text_env (lit "head BEGIN tail  ")) sample_handler false
             (lit "head BEGIN tail  ") [lit "head BEGIN tail  "] (lit "BEGIN")
             None sample_state Ha eq_refl) eq_refl 5).
    apply first_atb_true. reflexivity.
  - apply (proj2 (@extract_from_start_marker
             (sample_text_env (lit "head BEGIN tail  ")) sample_handler false
             (lit "head BEGIN tail  ") [lit "head BEGIN tail  "] (lit "BEGIN")
             (Some []) sample_state Ha eq_refl) eq_refl 5).
    apply first_atb_true. reflexivity.
Defined.

(** X2: with an end marker alone (no start marker, or an empty one), both
    extractions return the content before the first occurrence of the end
    marker, stripped; nothing is logged. *)
Theorem extract_up_to_end_marker
    (E : env) (self : handler) (cleaned : bool) (md : str) (texts : list str)
    (start : option str) (b : str) (s : state) :
  truthy start = false -> b <> [] ->
  (to_markdown E (pdf_path self) = inr md ->
   forall j, first_at (processed cleaned md) b 0 j ->
     extract_markdown_content E self cleaned start (Some b) s =
     (inr (strip (firstn j (processed cleaned md))),
      traced s (IoEngine (pdf_path self))))
  /\
  (pymupdf_open E (pdf_path self) = inr (map inr texts) ->
   forall j, first_at (joined texts) b 0 j ->
     extract_text_content E self start (Some b) s =
     (inr (VStr (strip (firstn j (joined texts)))),
      traced s (IoEngine (pdf_path self)))).
Proof.
  intros Hs Hb. split.
  - intros Hmd j Hf. erewrite extract_markdown_content_select by eassumption.
    apply select_to_end_marker; assumption.
  - intros Hdoc j Hf. erewrite extract_text_content_select by eassumption.
    unfold bind. erewrite select_to_end_marker by eassumption. reflexivity.
Qed.

Lemma extract_up_to_end_marker_witness :
  extract_markdown_content (sample_text_env (lit "  head END tail"))
    sample_handler false None (Some (lit "END")) sample_state
  = (inr (lit "head"), traced sample_state (IoEngine (lit "/docs/report.pdf")))
  /\
  extract_text_content (sample_text_env (lit "  head END tail"))
    sample_handler (Some []) (Some (lit "END")) sample_state
  = (inr (VStr (lit "head")),
     traced sample_state (IoEngine (lit "/docs/report.pdf"))).
Proof.
  assert (Hb : lit "END" <> []) by discriminate.
  split.
  - apply (proj1 (@extract_up_to_end_marker
             (sample_text_env (lit "  head END tail")) sample_handler false
             (lit "  head END tail") [lit "  head END tail"] None (lit "END")
             sample_state eq_refl Hb) eq_refl 7).
    apply first_atb_true. reflexivity.
  - apply (proj2 (@extract_up_to_end_marker
             (sample_text_env (lit "  head END tail")) sample_handler false
             (lit "  head END tail") [lit "  head END tail"] (Some []) (lit "END")
             sample_state eq_refl Hb) eq_refl 7).
    apply first_atb_true. reflexivity.
Defined.

Lemma occurs_fromb_false s sub from :
  occurs_fromb s sub from = false ->
  forall j, from <= j -> ~ occurs_at s sub j.
Proof.
  unfold occurs_fromb. intros H j Hj Hocc.
  apply occurs_at_iff in Hocc. destruct Hocc as [Hlen Hs].
  pose proof (find_from_spec sub (skipn from s) from) as Hf.
  destruct (find_from sub (skipn from s) from); [discriminate|].
  specialize (Hf (j - from)). rewrite length_skipn in Hf.
  specialize (Hf ltac:(lia)). rewrite skipn_skipn in Hf.
  replace (j - from + from) with j in Hf by lia. congruence.
Qed.

(** X3: when the end marker does not occur at or after the first
    occurrence of the start marker, both extractions log the warning and
    return the whole content stripped, even if the end marker occurs
    before the start marker. *)
Theorem end_marker_not_after_start_returns_full_content
    (E : env) (self : handler) (cleaned : bool) (md : str) (texts : list str)
    (a b : str) (s : state) :
  a <> [] ->
  (to_markdown E (pdf_path self) = inr md ->
   forall i, first_at (processed cleaned md) a 0 i ->
     (forall j, i <= j -> ~ occurs_at (processed cleaned md) b j) ->
     extract_markdown_content E self cleaned (Some a) (Some b) s =
     (inr (strip (processed cleaned md)),
      logged (traced s (IoEngine (pdf_path self))) WARNING not_found_warning))
  /\
  (pymupdf_open E (pdf_path self) = inr (map inr texts) ->
   forall i, first_at (joined texts) a 0 i ->
     (forall j, i <= j -> ~ occurs_at (joined texts) b j) ->
     extract_text_content E self (Some a) (Some b) s =
     (inr (VStr (strip (joined texts))),
      logged (traced s (IoEngine (pdf_path self))) WARNING not_found_warning)).
Proof.
  intros Ha. split.
  - intros Hmd i Hf Hno. erewrite extract_markdown_content_select by eassumption.
    eapply select_end_not_after; eassumption.
  - intros Hdoc i Hf Hno. erewrite extract_text_content_select by eassumption.
    unfold bind. erewrite select_end_not_after by eassumption. reflexivity.
Qed.

Lemma end_marker_not_after_start_returns_full_content_witness :
  occurs (lit " END x BEGIN y ") (lit "END") /\
  extract_markdown_content (sample_text_env (lit " END x BEGIN y "))
    sample_handler false (Some (lit "BEGIN")) (Some (lit "END")) sample_state
  = (inr (lit "END x BEGIN y"),
     logged (traced sample_state (IoEngine (lit "/docs/report.pdf")))
       WARNING not_found_warning)
  /\
  extract_text_content (sample_text_env (lit " END x BEGIN y "))
    sample_handler (Some (lit "BEGIN")) (Some (lit "END")) sample_state
  = (inr (VStr (lit "END x BEGIN y")),
     logged (traced sample_state (IoEngine (lit "/docs/report.pdf")))
       WARNING not_found_warning).
Proof.
  assert (Ha : lit "BEGIN" <> []) by discriminate.
  split; [exists 1, (lit " "), (lit " x BEGIN y "); split; reflexivity|].
  split.
  - apply (proj1 (@end_marker_not_after_start_returns_full_content
             (sample_text_env (lit " END x BEGIN y ")) sample_handler false
             (lit " END x BEGIN y ") [lit " END x BEGIN y "] (lit "BEGIN")
             (lit "END") sample_state Ha) eq_refl 7).
    + apply first_atb_true. reflexivity.
    + apply occurs_fromb_false. reflexivity.
  - apply (proj2 (@end_marker_not_after_start_returns_full_content
             (sample_text_env (lit " END x BEGIN y ")) sample_handler false
             (lit " END x BEGIN y ") [lit " END x BEGIN y "] (lit "BEGIN")
             (lit "END") sample_state Ha) eq_refl 7).
    + apply first_atb_true. reflexivity.
    + apply occurs_fromb_false. reflexivity.
Defined.

Lemma select_end_at_start (content a b : str) i s :
  b <> [] -> first_at content a 0 i -> occurs_at content b i ->
  select content (Some a) (Some b) s = (inr [], s).
Proof.
  intros Hb Hf Hocc.
  assert (Hfb : first_at content b i i).
  { split; [lia|]. split; [exact Hocc|]. intros j Hj. lia. }
  erewrite select_between by eassumption. rewrite Nat.sub_diag. reflexivity.
Qed.

(** X4: when the end marker occurs right where the start marker is first
    found (the same marker passed twice, or an end marker that begins the
    start marker), both extractions return the empty string, without a
    warning. *)
Theorem end_marker_at_start_gives_empty
    (E : env) (self : handler) (cleaned : bool) (md : str) (texts : list str)
    (a b : str) (s : state) :
  b <> [] ->
  (to_markdown E (pdf_path self) = inr md ->
   forall i, first_at (processed cleaned md) a 0 i ->
     occurs_at (processed cleaned md) b i ->
     extract_markdown_content E self cleaned (Some a) (Some b) s =
     (inr [], traced s (IoEngine (pdf_path self))))
  /\
  (pymupdf_open E (pdf_path self) = inr (map inr texts) ->
   forall i, first_at (joined texts) a 0 i ->
     occurs_at (joined texts) b i ->
     extract_text_content E self (Some a) (Some b) s =
     (inr (VStr []), traced s (IoEngine (pdf_path self)))).
Proof.
  intros Hb. split.
  - intros Hmd i Hf Hocc. erewrite extract_markdown_content_select by eassumption.
    eapply select_end_at_start; eassumption.
  - intros Hdoc i Hf Hocc. erewrite extract_text_content_select by eassumption.
    unfold bind. erewrite select_end_at_start by eassumption. reflexivity.
Qed.

Lemma end_marker_at_start_gives_empty_witness :
  extract_markdown_content (sample_text_env (lit "a MARK b MARK c"))
    sample_handler false (Some (lit "MARK")) (Some (lit "MARK")) sample_state
  = (inr [], traced sample_state (IoEngine (lit "/docs/report.pdf")))
  /\
  extract_text_content (sample_text_env (lit "a MARK b MARK c"))
    sample_handler (Some (lit "MARK")) (Some (lit "MARK")) sample_state
  = (inr (VStr []), traced sample_state (IoEngine (lit "/docs/report.pdf"))).
Proof.
  assert (Hb : lit "MARK" <> []) by discriminate.
  assert (Hf : first_at (lit "a MARK b MARK c") (lit "MARK") 0 2)
    by (apply first_atb_true; reflexivity).
  split.
  - apply (proj1 (@end_marker_at_start_gives_empty
             (sample_text_env (lit "a MARK b MARK c")) sample_handler false
             (lit "a MARK b MARK c") [lit "a MARK b MARK c"] (lit "MARK")
             (lit "MARK") sample_state Hb) eq_refl 2 Hf).
    destruct Hf as (_ & Hocc & _). exact Hocc.
  - apply (proj2 (@end_marker_at_start_gives_empty
             (sample_text_env (lit "a MARK b MARK c")) sample_handler false
             (lit "a MARK b MARK c") [lit "a MARK b MARK c"] (lit "MARK")
             (lit "MARK") sample_state Hb) eq_refl 2 Hf).
    destruct Hf as (_ & Hocc & _). exact Hocc.
Defined.

(** X5: whatever the markers, what an extraction returns when the
    engine answers is a contiguous part of the processed content, that
    is of the engine's Markdown after the image removal, if asked for,
    and the formatting pass, or of the page texts joined by blank lines;
    and when a marker is passed it neither begins nor ends with
    whitespace. *)
Theorem extraction_returns_part_of_content
    (E : env) (self : handler) (cleaned : bool) (md : str) (texts : list str)
    (start end_ : option str) (s : state) :
  (to_markdown E (pdf_path self) = inr md ->
   exists out,
     fst (extract_markdown_content E self cleaned start end_ s) = inr out /\
     infix_of out (processed cleaned md) /\
     (truthy start || truthy end_ = true -> trimmed out))
  /\
  (pymupdf_open E (pdf_path self) = inr (map inr texts) ->
   exists out,
     fst (extract_text_content E self start end_ s) = inr (VStr out) /\
     infix_of out (joined texts) /\
     (truthy start || truthy end_ = true -> trimmed out)).
Proof.
  split.
  - intros Hmd. erewrite extract_markdown_content_select by eassumption.
    destruct (select_effect (processed cleaned md) start end_
                (traced s (IoEngine (pdf_path self)))) as (out & s' & Hsel & _).
    exists out. rewrite Hsel. split; [reflexivity|].
    eapply select_part; eassumption.
  - intros Hdoc. erewrite extract_text_content_select by eassumption.
    destruct (select_effect (joined texts) start end_
                (traced s (IoEngine (pdf_path self)))) as (out & s' & Hsel & _).
    exists out. unfold bind. rewrite Hsel. split; [reflexivity|].
    eapply select_part; eassumption.
Qed.

Lemma extraction_returns_part_of_content_witness :
  (exists out,
     fst (extract_markdown_content (sample_text_env (lit " a BEGIN b "))
            sample_handler false (Some (lit "BEGIN")) None sample_state)
       = inr out /\
     infix_of out (processed false (lit " a BEGIN b ")) /\
     (truthy (Some (lit "BEGIN")) || truthy None = true -> trimmed out))
  /\
  (exists out,
     fst (extract_text_content (sample_text_env (lit " a BEGIN b "))
            sample_handler (Some (lit "BEGIN")) None sample_state)
       = inr (VStr out) /\
     infix_of out (joined [lit " a BEGIN b "]) /\
     (truthy (Some (lit "BEGIN")) || truthy None = true -> trimmed out)).
Proof.
  split.
  - apply (proj1 (@extraction_returns_part_of_content
             (sample_text_env (lit " a BEGIN b ")) sample_handler false
             (lit " a BEGIN b ") [lit " a BEGIN b "] (Some (lit "BEGIN")) None
             sample_state) eq_refl).
  - apply (proj2 (@extraction_returns_part_of_content
             (sample_text_env (lit " a BEGIN b ")) sample_handler false
             (lit " a BEGIN b ") [lit " a BEGIN b "] (Some (lit "BEGIN")) None
             sample_state) eq_refl).
Defined.

(** X6: with both markers left out or empty, both extractions return
    the content as it is, not stripped, and log nothing. *)
Theorem extraction_without_markers_is_untrimmed
    (E : env) (self : handler) (cleaned : bool) (md : str) (texts : list str)
    (start end_ : option str) (s : state) :
  truthy start = false -> truthy end_ = false ->
  (to_markdown E (pdf_path self) = inr md ->
   extract_markdown_content E self cleaned start end_ s =
   (inr (processed cleaned md), traced s (IoEngine (pdf_path self))))
  /\
  (pymupdf_open E (pdf_path self) = inr (map inr texts) ->
   extract_text_content E self start end_ s =
   (inr (VStr (joined texts)), traced s (IoEngine (pdf_path self)))).
Proof.
  intros Hs He. split.
  - intros Hmd. erewrite extract_markdown_content_select by eassumption.
    apply select_nothing; assumption.
  - intros Hdoc. erewrite extract_text_content_select by eassumption.
    unfold bind. rewrite select_nothing by assumption. reflexivity.
Qed.

Lemma extraction_without_markers_is_untrimmed_witness :
  extract_markdown_content (sample_text_env (lit "  text  "))
    sample_handler false None (Some []) sample_state
  = (inr (lit "  text  "), traced sample_state (IoEngine (lit "/docs/report.pdf")))
  /\
  extract_text_content (sample_text_env (lit "  text  "))
    sample_handler (Some []) None sample_state
  = (inr (VStr (lit "  text  ")),
     traced sample_state (IoEngine (lit "/docs/report.pdf"))).
Proof.
  split.
  - apply (proj1 (@extraction_without_markers_is_untrimmed
             (sample_text_env (lit "  text  ")) sample_handler false
             (lit "  text  ") [lit "  text  "] None (Some []) sample_state
             eq_refl eq_refl) eq_refl).
  - apply (proj2 (@extraction_without_markers_is_untrimmed
             (sample_text_env (lit "  text  ")) sample_handler false
             (lit "  text  ") [lit "  text  "] (Some []) None sample_state
             eq_refl eq_refl) eq_refl).
Defined.

Lemma pages_text_state pages s : snd (pages_text pages s) = s.
Proof.
  induction pages as [|[e|t] ps IH]; cbn [pages_text]; try reflexivity.
  unfold bind. destruct (pages_text ps s) as [[e|ts] s'] eqn:H;
    cbn [snd] in *; subst; reflexivity.
Qed.

(** X7: no exception of class [Exception] escapes an extraction:
    whatever the engine answers or raises within that class, and whatever
    the markers, the call returns a value; each has the engine read the
    document once and leaves files and buffers as they were. *)
Theorem extraction_never_raises
    (E : env) (self : handler) (cleaned : bool) (start end_ : option str)
    (s : state) :
  (exists out,
     fst (extract_markdown_content E self cleaned start end_ s) = inr out) /\
  only_engine_read s
    (snd (extract_markdown_content E self cleaned start end_ s)) (pdf_path self) /\
  (exists v, fst (extract_text_content E self start end_ s) = inr v) /\
  only_engine_read s
    (snd (extract_text_content E self start end_ s)) (pdf_path self).
Proof.
  assert (Hmd : (exists out,
            fst (extract_markdown_content E self cleaned start end_ s) = inr out) /\
          only_engine_read s
            (snd (extract_markdown_content E self cleaned start end_ s))
            (pdf_path self)).
  { destruct (to_markdown E (pdf_path self)) as [e|md] eqn:Hmd.
    - unfold extract_markdown_content, catch, extract_markdown_try,
        engine_markdown, bind, emit. rewrite Hmd.
      split; [eexists; reflexivity | repeat split].
    - erewrite extract_markdown_content_select by eassumption.
      destruct (select_effect (processed cleaned md) start end_
                  (traced s (IoEngine (pdf_path self))))
        as (out & s' & -> & Hfs & Hheap & Htr).
      split; [eexists; reflexivity|]. repeat split; assumption. }
  assert (Htx : (exists v, fst (extract_text_content E self start end_ s) = inr v) /\
          only_engine_read s
            (snd (extract_text_content E self start end_ s)) (pdf_path self)).
  { unfold extract_text_content, catch, extract_text_try, engine_text, bind, emit.
    destruct (pymupdf_open E (pdf_path self)) as [e|pages] eqn:Hdoc.
    - split; [eexists; reflexivity | repeat split].
    - cbv beta iota.
      pose proof (pages_text_state pages
                    (State (fs s) (heap s) (log s)
                       (trace s ++ [IoEngine (pdf_path self)]))) as Hst.
      destruct (pages_text pages _) as [[e|ts] s1]; cbn [snd] in Hst; subst s1.
      + split; [eexists; reflexivity | repeat split].
      + destruct (truthy start || truthy end_).
        * cbv zeta. destruct (_ || _);
            (split; [eexists; reflexivity | repeat split]).
        * split; [eexists; reflexivity | repeat split]. }
  destruct Hmd as [H1 H2]. destruct Htx as [H3 H4].
  exact (conj H1 (conj H2 (conj H3 H4))).
Qed.

(** ** Formatting, line by line *)

Lemma split_nonempty s : split NL s <> [].
Proof.
  destruct s as [|c s]; cbn [split]; [discriminate|].
  destruct (N.eqb c NL); [discriminate|].
  destruct (split NL s); discriminate.
Qed.

Lemma split_lines_lack_newline : forall s, Forall (lacks NL) (split NL s).
Proof.
  induction s as [|c s IH]; cbn [split].
  - constructor; [intros [] | constructor].
  - destruct (N.eqb c NL) eqn:Hc.
    + constructor; [intros [] | exact IH].
    + destruct (split NL s) as [|l ls]; [constructor; [|constructor]|].
      * intros [H | []]. subst c. rewrite N.eqb_refl in Hc. discriminate.
      * inversion IH as [|? ? Hl Hls]; subst. constructor; [|exact Hls].
        intros [H | H]; [|exact (Hl H)].
        subst c. rewrite N.eqb_refl in Hc. discriminate.
Qed.

Lemma split_line_free l : lacks NL l -> split NL l = [l].
Proof.
  induction l as [|c l IH]; intros H; [reflexivity|].
  cbn [split]. destruct (N.eqb c NL) eqn:Hc.
  - apply N.eqb_eq in Hc. subst c. exfalso. apply H. left. reflexivity.
  - rewrite IH; [reflexivity|]. intros Hin. apply H. right. exact Hin.
Qed.

Lemma split_line_then l r :
  lacks NL l -> split NL (l ++ NL :: r) = l :: split NL r.
Proof.
  induction l as [|c l IH]; intros H; cbn [app split].
  - rewrite N.eqb_refl. reflexivity.
  - destruct (N.eqb c NL) eqn:Hc.
    + apply N.eqb_eq in Hc. subst c. exfalso. apply H. left. reflexivity.
    + rewrite IH; [reflexivity|]. intros Hin. apply H. right. exact Hin.
Qed.

Lemma split_join ls :
  ls <> [] -> Forall (lacks NL) ls -> split NL (join [NL] ls) = ls.
Proof.
  induction ls as [|l ls IH]; intros Hne Hall; [congruence|].
  inversion Hall as [|? ? Hl Hls]; subst.
  destruct ls as [|l2 ls].
  - cbn [join]. apply split_line_free, Hl.
  - change (join [NL] (l :: l2 :: ls)) with (l ++ NL :: join [NL] (l2 :: ls)).
    rewrite (split_line_then _ Hl), IH; [reflexivity | discriminate | exact Hls].
Qed.

Lemma lacks_infix c out s : infix_of out s -> lacks c s -> lacks c out.
Proof.
  intros (pre & post & ->) H Hin. apply H.
  apply in_or_app. right. apply in_or_app. left. exact Hin.
Qed.

Lemma promote_line_lacks_newline l : lacks NL l -> lacks NL (promote_line l).
Proof.
  intros H. unfold promote_line. destruct (re_match heading_re l); [|exact H].
  intros Hin. apply in_app_or in Hin. destruct Hin as [Hin | Hin].
  - cbn in Hin. repeat (destruct Hin as [Hin | Hin]; [discriminate|]). exact Hin.
  - revert Hin. apply (lacks_infix (strip_by_infix _ l) H).
Qed.

(** What the heading pattern matches holds two stars. *)
Lemma heading_match_has_star l st : re_match heading_re l = Some st -> In 42%N l.
Proof.
  unfold re_match. intros H. apply match_at_sound in H. destruct H as [H _].
  unfold heading_re in H.
  apply matches_cat_inv in H. destruct H as (st1 & H1 & H).
  apply matches_bol_inv in H1. destruct H1 as [-> _].
  apply matches_cat_inv in H. destruct H as (st2 & H2 & H).
  apply matches_cat_inv in H. destruct H as (st3 & H3 & _).
  apply matches_span in H2. destruct H2 as (w & Hw & _).
  apply matches_word in H3. destruct H3 as (Hs & _).
  cbn [rest] in Hw. rewrite Hw, Hs.
  apply in_or_app. right. left. reflexivity.
Qed.

Lemma promote_line_without_star l : lacks 42%N l -> promote_line l = l.
Proof.
  intros H. unfold promote_line.
  destruct (re_match heading_re l) eqn:Hm; [|reflexivity].
  exfalso. exact (H (heading_match_has_star _ Hm)).
Qed.

(** A promoted line is not promoted again. *)
Lemma promote_line_idempotent l : promote_line (promote_line l) = promote_line l.
Proof.
  assert (Hno : forall y, re_match heading_re (lit "## " ++ y) = None)
    by (intros y; reflexivity).
  remember (promote_line l) as pl eqn:Hpl. unfold promote_line in Hpl.
  destruct (re_match heading_re l) eqn:Hm; subst pl; unfold promote_line.
  - rewrite Hno. reflexivity.
  - rewrite Hm. reflexivity.
Qed.

Lemma format_lines s :
  split NL (_format_markdown_content s) = map promote_line (split NL s).
Proof.
  rewrite format_is_promotion, promote_headings_map.
  apply split_join.
  - pose proof (split_nonempty s). destruct (split NL s); [congruence | discriminate].
  - pose proof (split_lines_lack_newline s) as H.
    induction H; constructor; auto. apply promote_line_lacks_newline. assumption.
Qed.

Lemma split_lines_in : forall s l c, In l (split NL s) -> In c l -> In c s.
Proof.
  induction s as [|d s IH]; intros l c Hl Hc; cbn [split] in Hl.
  - destruct Hl as [<- | []]. exact Hc.
  - destruct (N.eqb d NL).
    + destruct Hl as [<- | Hl]; [destruct Hc|]. right. exact (IH _ _ Hl Hc).
    + destruct (split NL s) as [|l0 ls] eqn:Hs.
      * destruct Hl as [<- | []]. destruct Hc as [<- | []]. left. reflexivity.
      * destruct Hl as [<- | Hl].
        -- destruct Hc as [<- | Hc]; [left; reflexivity|].
           right. apply (IH l0 c); [left; reflexivity | exact Hc].
        -- right. apply (IH l c); [right; exact Hl | exact Hc].
Qed.

Lemma split_app_line : forall x y, split NL (x ++ NL :: y) = split NL x ++ split NL y.
Proof.
  induction x as [|c x IH]; intros y; cbn [app split].
  - rewrite N.eqb_refl. reflexivity.
  - rewrite IH. destruct (N.eqb c NL); [reflexivity|].
    pose proof (split_nonempty x) as Hne.
    destruct (split NL x) as [|l ls]; [congruence | reflexivity].
Qed.

Lemma join_app ls1 ls2 :
  ls1 <> [] -> ls2 <> [] ->
  join [NL] (ls1 ++ ls2) = join [NL] ls1 ++ NL :: join [NL] ls2.
Proof.
  induction ls1 as [|l ls1 IH]; intros H1 H2; [congruence|].
  destruct ls1 as [|l1 ls1].
  - cbn [app]. destruct ls2 as [|l2 ls2]; [congruence | reflexivity].
  - change (join [NL] ((l :: l1 :: ls1) ++ ls2))
      with (l ++ NL :: join [NL] ((l1 :: ls1) ++ ls2)).
    change (join [NL] (l :: l1 :: ls1)) with (l ++ NL :: join [NL] (l1 :: ls1)).
    rewrite IH by (auto; discriminate). rewrite <- app_assoc. reflexivity.
Qed.

Lemma map_nonempty {A B} (f : A -> B) l : l <> [] -> map f l <> [].
Proof. destruct l; [congruence | discriminate]. Qed.

(** X8: a text without an asterisk comes out of the formatting pass
    unchanged. *)
Theorem format_without_asterisk_is_unchanged (s : str) :
  lacks 42%N s -> _format_markdown_content s = s.
Proof.
  intros H. rewrite format_is_promotion, promote_headings_map.
  rewrite <- (join_split s) at 2. f_equal.
  assert (Hall : forall l, In l (split NL s) -> promote_line l = l).
  { intros l Hl. apply promote_line_without_star.
    intros Hc. apply H. exact (split_lines_in _ _ _ Hl Hc). }
  induction (split NL s) as [|l ls IH]; [reflexivity|].
  cbn [map]. rewrite (Hall l (or_introl eq_refl)), IH; [reflexivity|].
  intros l' Hl'. apply Hall. right. exact Hl'.
Qed.

Lemma format_without_asterisk_is_unchanged_witness :
  _format_markdown_content (lit "# Title" ++ [NL] ++ lit "__plain__ text")
  = lit "# Title" ++ [NL] ++ lit "__plain__ text".
Proof.
  apply (@format_without_asterisk_is_unchanged
           (lit "# Title" ++ [NL] ++ lit "__plain__ text")).
  intros H. cbn in H.
  repeat (destruct H as [H | H]; [discriminate|]). exact H.
Defined.

(** X9: the formatting pass works line by line: the lines of its result
    are the lines of its input, each one either kept or, where the
    heading pattern matches it, replaced by "## " and the line stripped
    of spaces and asterisks; so the number of lines stays the same. *)
Theorem format_acts_line_by_line (s : str) :
  split NL (_format_markdown_content s) = map promote_line (split NL s) /\
  List.length (split NL (_format_markdown_content s)) = List.length (split NL s).
Proof.
  rewrite format_lines, length_map. split; reflexivity.
Qed.

(** X10: formatting a formatted text changes nothing more. *)
Theorem format_idempotent (s : str) :
  _format_markdown_content (_format_markdown_content s)
  = _format_markdown_content s.
Proof.
  rewrite (format_is_promotion (_format_markdown_content s)).
  rewrite promote_headings_map, format_lines, map_map.
  rewrite (format_is_promotion s), promote_headings_map.
  f_equal. apply map_ext. intros l. apply promote_line_idempotent.
Qed.

(** X11: the formatting pass distributes over a newline: formatting two
    texts joined by a newline gives the two formatted texts joined by a
    newline. *)
Theorem format_distributes_over_newline (x y : str) :
  _format_markdown_content (x ++ NL :: y)
  = _format_markdown_content x ++ NL :: _format_markdown_content y.
Proof.
  rewrite !format_is_promotion, !promote_headings_map.
  rewrite split_app_line, map_app.
  apply join_app; apply map_nonempty, split_nonempty.
Qed.

(** X12: a line made of a bold span between runs of plain spaces, the
    text of the span free of asterisks and newlines and neither starting
    nor ending with a space, is formatted into "## " and that text. *)
Theorem format_promotes_bold_line (sp1 h sp2 : str) :
  forallb (fun c => N.eqb c 32) sp1 = true ->
  forallb (fun c => N.eqb c 32) sp2 = true ->
  h <> [] ->
  forallb (fun c => negb (N.eqb c 42)) h = true ->
  lacks NL h ->
  hd 0%N h <> 32%N -> last h 0%N <> 32%N ->
  _format_markdown_content (sp1 ++ lit "**" ++ h ++ lit "**" ++ sp2)
  = lit "## " ++ h.
Proof.
  intros H1 H2 Hne Hstar Hnl Hhd Hlast.
  rewrite format_is_promotion, promote_headings_map.
  assert (Hsp : forall sp, forallb (fun c => N.eqb c 32) sp = true -> lacks NL sp).
  { intros sp Hsp Hin. rewrite forallb_forall in Hsp.
    specialize (Hsp _ Hin). discriminate. }
  rewrite split_line_free.
  - cbn [map join]. apply heading_between_spaces; assumption.
  - intros Hin. apply in_app_or in Hin. destruct Hin as [Hin | Hin];
      [exact (Hsp _ H1 Hin)|].
    apply in_app_or in Hin. destruct Hin as [Hin | Hin].
    { cbn in Hin. repeat (destruct Hin as [Hin | Hin]; [discriminate|]). exact Hin. }
    apply in_app_or in Hin. destruct Hin as [Hin | Hin]; [exact (Hnl Hin)|].
    apply in_app_or in Hin. destruct Hin as [Hin | Hin]; [|exact (Hsp _ H2 Hin)].
    cbn in Hin. repeat (destruct Hin as [Hin | Hin]; [discriminate|]). exact Hin.
Qed.

Lemma format_promotes_bold_line_witness :
  _format_markdown_content (lit "  " ++ lit "**" ++ lit "Chapter 1" ++ lit "**" ++ lit " ")
  = lit "## " ++ lit "Chapter 1".
Proof.
  apply (@format_promotes_bold_line (lit "  ") (lit "Chapter 1") (lit " "));
    try reflexivity; try discriminate.
  intros H. cbn in H.
  repeat (destruct H as [H | H]; [discriminate|]). exact H.
Defined.

(** ** Saving *)





(** X15: saving the plain text of a document whose extraction fails
    leaves an empty file: the extraction returns [False], the output file
    is opened, which empties it, and writing [False] raises a
    [TypeError] that the helper logs.  The same happens when [False] is
    passed as the content. *)
Theorem save_text_after_failed_extraction_leaves_empty_file
    (E : env) (self : handler) (output_path : str) (start end_ : option str)
    (e : exn) (s : state) :
  open_write_fault E output_path = None ->
  (text_fails (pymupdf_open E (pdf_path self)) e ->
   let r := save_text_to_file E self output_path None start end_ s in
   fst r = inr tt /\
   fs (snd r) output_path = File [] /\
   log (snd r) =
     log s ++
     [(ERROR, lit "An error occurred while extracting text content: " ++ exn_msg e);
      (ERROR, lit "Failed to save plain text file: write() argument must be str, not bool")])
  /\
  (let r := save_text_to_file E self output_path (Some VFalse) start end_ s in
   fst r = inr tt /\
   fs (snd r) output_path = File [] /\
   log (snd r) =
     log s ++
     [(ERROR, lit "Failed to save plain text file: write() argument must be str, not bool")]).
Proof.
  intros Hopen. split.
  - intros Hfail r. subst r.
    unfold save_text_to_file, extract_text_content, extract_text_try, engine_text,
      write_value, catch, bind, emit, logger, set_file, ret, raise.
    destruct Hfail as [Hdoc | (before & after & Hdoc)]; rewrite Hdoc;
      [|rewrite pages_text_fails];
      cbn [fs heap log trace]; rewrite Hopen; cbn [fst snd fs heap log trace];
      rewrite eqb_refl, <- app_assoc; repeat split.
  - intros r. subst r.
    unfold save_text_to_file, write_value, catch, bind, emit, logger, set_file,
      ret, raise.
    cbn [fs heap log trace]. rewrite Hopen. cbn [fst snd fs heap log trace].
    rewrite eqb_refl. repeat split.
Qed.

Lemma save_text_after_failed_extraction_leaves_empty_file_witness :
  fs sample_state (lit "/docs/notes.txt") = File [104; 105]%N /\
  fs (snd (save_text_to_file
             (sample_env (inr []) (inl (Exn OtherException (lit "bad"))))
             sample_handler (lit "/docs/notes.txt") None None None sample_state))
     (lit "/docs/notes.txt") = File [].
Proof.
  split; [reflexivity|].
  exact (proj1 (proj2 (proj1 (@save_text_after_failed_extraction_leaves_empty_file
           (sample_env (inr []) (inl (Exn OtherException (lit "bad"))))
           sample_handler (lit "/docs/notes.txt") None None
           (Exn OtherException (lit "bad")) sample_state eq_refl)
         (or_introl eq_refl)))).
Defined.

(** X16: when the output path cannot be opened, a save helper changes no
    file, writes nothing, logs the failure and returns normally, while
    [save_content] raises what opening raised and logs nothing. *)
Theorem failed_open_is_swallowed_by_helpers_only
    (E : env) (self : handler) (output_path content : str) (cleaned : bool)
    (start end_ : option str) (e : exn) (s : state) :
  open_write_fault E output_path = Some e ->
  save_markdown_to_file E self output_path (Some content) cleaned start end_ s =
    (inr tt,
     logged (traced s (IoOpenWrite output_path)) ERROR
       (lit "Failed to save Markdown file: " ++ exn_msg e)) /\
  save_text_to_file E self output_path (Some (VStr content)) start end_ s =
    (inr tt,
     logged (traced s (IoOpenWrite output_path)) ERROR
       (lit "Failed to save plain text file: " ++ exn_msg e)) /\
  save_content E self content output_path s =
    (inl e, traced s (IoOpenWrite output_path)).
Proof.
  intros Hopen.
  unfold save_markdown_to_file, save_text_to_file, save_content, write_text,
    write_value, catch, bind, emit, logger, ret, raise, logged, traced.
  cbn [fs heap log trace]. rewrite Hopen.
  repeat split.
Qed.

Lemma failed_open_is_swallowed_by_helpers_only_witness :
  fst (save_content
         (Env (fun _ => inr []) (fun _ => inr []) (fun p => Exn FileNotFoundError p)
              (fun _ => Some (Exn OtherException (lit "denied")))
              (fun _ => Exn UnicodeEncodeError []))
         sample_handler (lit "text") (lit "/out/x.md") sample_state)
  = inl (Exn OtherException (lit "denied")).
Proof.
  exact (f_equal fst
           (proj2 (proj2 (@failed_open_is_swallowed_by_helpers_only
              (Env (fun _ => inr []) (fun _ => inr []) (fun p => Exn FileNotFoundError p)
                   (fun _ => Some (Exn OtherException (lit "denied")))
                   (fun _ => Exn UnicodeEncodeError []))
              sample_handler (lit "/out/x.md") (lit "text") false None None
              (Exn OtherException (lit "denied")) sample_state eq_refl)))).
Defined.



(** X18: content that UTF-8 cannot encode (a lone surrogate) costs the
    file its former content: the file is opened, which empties it, the
    write raises, and the helper logs the failure and returns. *)
Theorem unencodable_content_leaves_empty_file
    (E : env) (self : handler) (output_path content : str) (cleaned : bool)
    (start end_ : option str) (s : state) :
  open_write_fault E output_path = None ->
  utf8 content = None ->
  let r := save_markdown_to_file E self output_path (Some content) cleaned
             start end_ s in
  fst r = inr tt /\
  fs (snd r) output_path = File [] /\
  log (snd r) =
    log s ++ [(ERROR, lit "Failed to save Markdown file: "
                        ++ exn_msg (encode_fault E content))].
Proof.
  intros Hopen Henc r. subst r.
  unfold save_markdown_to_file, write_text, catch, bind, emit, logger, set_file,
    ret, raise.
  cbn [fs heap log trace]. rewrite Hopen. cbv beta iota. rewrite Henc.
  cbn [fst snd fs heap log trace]. rewrite eqb_refl. repeat split.
Qed.

Lemma unencodable_content_leaves_empty_file_witness :
  fs (snd (save_markdown_to_file (sample_env (inr []) (inr [])) sample_handler
             (lit "/docs/notes.txt") (Some [55296%N]) false None None
             sample_state))
     (lit "/docs/notes.txt") = File [].
Proof.
  exact (proj1 (proj2 (@unencodable_content_leaves_empty_file
           (sample_env (inr []) (inr [])) sample_handler (lit "/docs/notes.txt")
           [55296%N] false None None sample_state eq_refl eq_refl))).
Defined.

(** ** The title *)

(** X20: no exception of class [Exception] escapes [get_pdf_title]:
    whatever the engine answers or raises within that class, the call
    returns, and never an empty title; it has the engine read the
    document once and leaves files and buffers as they were. *)
Theorem get_pdf_title_never_raises_nor_empty
    (doc_title : str -> exn + option str) (self : handler) (s : state) :
  exists title,
    fst (get_pdf_title doc_title self s) = inr title /\
    title <> Some [] /\
    only_engine_read s (snd (get_pdf_title doc_title self s)) (pdf_path self).
Proof.
  unfold get_pdf_title, engine_title, catch, bind, emit, logger, ret, raise,
    only_engine_read.
  destruct (doc_title (pdf_path self)) as [e|[[|c t]|]];
    eexists; (split; [reflexivity|]); (split; [discriminate|]);
    repeat split.
Qed.

(** X21: the title returned is the engine's title when that is a
    non-empty string, logged at INFO; a title that is missing or empty
    gives [None]; a failure of the engine gives [None] and an ERROR
    record. *)
Theorem get_pdf_title_outcomes
    (doc_title : str -> exn + option str) (self : handler) (s : state) :
  (forall t, t <> [] -> doc_title (pdf_path self) = inr (Some t) ->
     get_pdf_title doc_title self s =
     (inr (Some t),
      logged (traced s (IoEngine (pdf_path self))) INFO (lit "PDF Title: " ++ t)))
  /\
  (doc_title (pdf_path self) = inr (Some []) ->
     get_pdf_title doc_title self s =
     (inr None,
      logged (traced s (IoEngine (pdf_path self))) INFO (lit "PDF Title: ")))
  /\
  (doc_title (pdf_path self) = inr None ->
     get_pdf_title doc_title self s =
     (inr None,
      logged (traced s (IoEngine (pdf_path self))) INFO (lit "PDF Title: None")))
  /\
  (forall e, doc_title (pdf_path self) = inl e ->
     get_pdf_title doc_title self s =
     (inr None,
      logged (traced s (IoEngine (pdf_path self))) ERROR
        (lit "An error occurred while retrieving the page title: " ++ exn_msg e))).
Proof.
  unfold get_pdf_title, engine_title, catch, bind, emit, logger, ret, raise,
    logged, traced.
  split; [|split; [|split]].
  - intros t Ht H. rewrite H. destruct t; [congruence | reflexivity].
  - intros H. rewrite H. reflexivity.
  - intros H. rewrite H. reflexivity.
  - intros e H. rewrite H. reflexivity.
Qed.

Lemma get_pdf_title_outcomes_witness :
  fst (get_pdf_title (fun _ => inr (Some (lit "Annual Report"))) sample_handler
         sample_state) = inr (Some (lit "Annual Report"))
  /\ fst (get_pdf_title (fun _ => inr (Some [])) sample_handler sample_state)
     = inr None
  /\ fst (get_pdf_title (fun _ => inr None) sample_handler sample_state) = inr None
  /\ fst (get_pdf_title (fun _ => inl (Exn OtherException (lit "bad")))
            sample_handler sample_state) = inr None.
Proof.
  split; [|split; [|split]].
  - refine (f_equal fst
      (proj1 (@get_pdf_title_outcomes (fun _ => inr (Some (lit "Annual Report")))
                sample_handler sample_state) (lit "Annual Report") _ eq_refl)).
    discriminate.
  - exact (f_equal fst
      (proj1 (proj2 (@get_pdf_title_outcomes (fun _ => inr (Some []))
                       sample_handler sample_state)) eq_refl)).
  - exact (f_equal fst
      (proj1 (proj2 (proj2 (@get_pdf_title_outcomes (fun _ => inr None)
                              sample_handler sample_state))) eq_refl)).
  - exact (f_equal fst
      (proj2 (proj2 (proj2 (@get_pdf_title_outcomes
                              (fun _ => inl (Exn OtherException (lit "bad")))
                              sample_handler sample_state)))
         (Exn OtherException (lit "bad")) eq_refl)).
Defined.

(** ** The buffer and the file *)

(** X22: the constructor accepts a directory, but such an extractor
    cannot load its file: [get_memory_file] raises what opening the path
    raises, reads nothing and creates no buffer. *)
Theorem directory_extractor_cannot_load (E : env) (p : str) (s : state) :
  fs s p = Dir ->
  exists self s1,
    __init__ p s = (inr self, s1) /\
    get_memory_file E self s1 =
      (inl (open_read_fault E p), traced s1 (IoOpenRead p)) /\
    heap (snd (get_memory_file E self s1)) = heap s.
Proof.
  intros Hdir. exists (Handler p None), (traced s (IoStat p)).
  unfold __init__, os_path_exists, get_memory_file, read_binary, bind, stat,
    emit, ret, raise, traced.
  cbn [fs heap log trace pdf_path memory_file]. rewrite Hdir.
  repeat split.
Qed.

Lemma directory_extractor_cannot_load_witness :
  exists self s1,
    __init__ (lit "/docs") sample_state = (inr self, s1) /\
    get_memory_file (sample_env (inr []) (inr [])) self s1 =
      (inl (open_read_fault (sample_env (inr []) (inr [])) (lit "/docs")),
       traced s1 (IoOpenRead (lit "/docs"))) /\
    heap (snd (get_memory_file (sample_env (inr []) (inr [])) self s1))
      = heap sample_state.
Proof.
  exact (@directory_extractor_cannot_load (sample_env (inr []) (inr []))
           (lit "/docs") sample_state eq_refl).
Defined.

(** X23: once a buffer is cached (and not closed), [get_memory_file]
    touches no file: it rewinds the cached buffer and returns it with the
    bytes it holds, whatever has become of the file since. *)
Theorem cached_buffer_is_returned_without_io
    (E : env) (path : str) (r k : nat) (data : list N) (s : state) :
  r < List.length (heap s) ->
  nth r (heap s) (BytesIO [] 0 true) = BytesIO data k false ->
  let out := get_memory_file E (Handler path (Some r)) s in
  fst out = inr (Handler path (Some r), r) /\
  nth r (heap (snd out)) (BytesIO [] 0 true) = BytesIO data 0 false /\
  fs (snd out) = fs s /\ trace (snd out) = trace s /\ log (snd out) = log s.
Proof.
  intros Hr Hb out. subst out.
  unfold get_memory_file, bio_seek0, bind, load, store, ret, raise.
  cbn [memory_file pdf_path]. rewrite Hb. cbn [bio_closed bio_data fst snd heap fs trace log].
  rewrite nth_set_nth_eq by exact Hr. repeat split.
Qed.

Lemma cached_buffer_is_returned_without_io_witness :
  fs (State (fun _ => Missing) [BytesIO [37; 80]%N 2 false] [] [])
     (lit "/docs/report.pdf") = Missing /\
  fst (get_memory_file (sample_env (inr []) (inr []))
         (Handler (lit "/docs/report.pdf") (Some 0))
         (State (fun _ => Missing) [BytesIO [37; 80]%N 2 false] [] []))
  = inr (Handler (lit "/docs/report.pdf") (Some 0), 0).
Proof.
  split; [reflexivity|].
  refine (proj1 (@cached_buffer_is_returned_without_io
            (sample_env (inr []) (inr [])) (lit "/docs/report.pdf") 0 2
            [37; 80]%N (State (fun _ => Missing) [BytesIO [37; 80]%N 2 false] [] [])
            _ eq_refl)).
  cbn. lia.
Defined.

(** ** Validation *)

Lemma validate_paths_accepts_inv stat_fault source destination s :
  fst (validate_paths stat_fault source destination s) = inr tt ->
  is_file (fs s source) = true /\ is_pdf source = true /\
  fs s destination = Dir.
Proof.
  unfold validate_paths, path_exists, path_is_file, path_is_dir, path_stat,
    bind, stat, ret, raise, is_pdf.
  destruct (fs s source) as [|data| |] eqn:Hs; simpl; rewrite ?Hs; simpl;
    try (destruct (stat_fault source); simpl; rewrite ?Hs; simpl);
    try discriminate;
    (destruct (PyStr.eqb (lower (path_suffix source)) (lit ".pdf")); simpl;
       try discriminate;
     destruct (fs s destination) eqn:Hd; simpl; rewrite ?Hd; simpl;
       try (destruct (stat_fault destination); simpl; rewrite ?Hd; simpl);
       try discriminate;
     intros _; auto).
Qed.

Ltac all_stats := repeat (apply Forall_cons; [auto|]); apply Forall_nil.

Ltac only_stats :=
  repeat split; rewrite <- ?app_assoc; simpl; eexists;
  (split; [reflexivity|]); (split; [|try discriminate; intros _]); all_stats.

(** X24: [validate_paths] only looks: it leaves files, buffers and log as
    they were, its I/O is tests of the source and of the destination, and
    the destination is not even tested when the source is rejected. This
    holds too when a test fails and its error is passed on. *)
Theorem validate_paths_only_looks (stat_fault : str -> option exn)
    (source destination : str) (s : state) :
  let r := validate_paths stat_fault source destination s in
  fs (snd r) = fs s /\ heap (snd r) = heap s /\ log (snd r) = log s /\
  exists evs,
    trace (snd r) = trace s ++ evs /\
    Forall (fun ev => ev = IoStat source \/ ev = IoStat destination) evs /\
    (is_file (fs s source) && is_pdf source = false ->
     Forall (fun ev => ev = IoStat source) evs).
Proof.
  unfold validate_paths, path_exists, path_is_file, path_is_dir, path_stat,
    bind, stat, ret, raise, is_pdf.
  destruct (fs s source) as [|data| |] eqn:Hs; simpl; rewrite ?Hs; simpl;
    try (destruct (stat_fault source); simpl; rewrite ?Hs; simpl);
    try (destruct (PyStr.eqb (lower (path_suffix source)) (lit ".pdf")); simpl;
         [destruct (fs s destination) eqn:Hd; simpl; rewrite ?Hd; simpl;
            try (destruct (stat_fault destination); simpl; rewrite ?Hd; simpl)|]);
    only_stats.
Qed.

(** X25: what [validate_paths] accepts as a source, the constructor
    accepts, and it is a regular file; whether [get_memory_file] loads it
    is not settled by that: on the same files the first call returns a
    new buffer with the bytes of the source at offset 0 if the file can
    be read, and raises the error of [open] if it cannot. *)
Theorem validated_source_loads_if_readable
    (E : env) (stat_fault : str -> option exn)
    (source destination : str) (s s1 : state) :
  fst (validate_paths stat_fault source destination s) = inr tt ->
  fs s1 = fs s ->
  fst (__init__ source s1) = inr (Handler source None) /\
  ((exists data, fs s source = File data) \/ fs s source = Unreadable) /\
  forall s2, fs s2 = fs s ->
    let out := get_memory_file E (Handler source None) s2 in
    (forall data, fs s source = File data ->
       fst out = inr (Handler source (Some (List.length (heap s2))),
                      List.length (heap s2)) /\
       nth (List.length (heap s2)) (heap (snd out)) (BytesIO [] 0 true)
         = BytesIO data 0 false) /\
    (fs s source = Unreadable ->
       fst out = inl (open_read_fault E source) /\
       heap (snd out) = heap s2).
Proof.
  intros Hok Hfs1.
  destruct (validate_paths_accepts_inv _ _ _ _ Hok) as (Hsrc & _ & _).
  split; [|split].
  - unfold __init__, os_path_exists, bind, stat, ret, raise.
    rewrite Hfs1. destruct (fs s source); try discriminate Hsrc; reflexivity.
  - destruct (fs s source); try discriminate Hsrc; eauto.
  - intros s2 Hfs2 out. subst out.
    unfold get_memory_file, read_binary, bio_seek0, bind, emit, alloc, load,
      store, ret, raise.
    cbn [memory_file pdf_path fs heap log trace]. rewrite Hfs2.
    split.
    + intros data Hd. rewrite Hd.
      cbn [fst snd fs heap log trace]. rewrite nth_middle.
      cbn [bio_closed bio_data fst snd heap].
      split; [reflexivity|].
      apply nth_set_nth_eq. rewrite length_app. cbn. lia.
    + intros Hu. rewrite Hu. split; reflexivity.
Qed.

Lemma validated_source_loads_if_readable_witness :
  fst (__init__ (lit "/docs/sealed.pdf") (State sealed_fs [] [] []))
    = inr (Handler (lit "/docs/sealed.pdf") None) /\
  fst (get_memory_file (sample_env (inr []) (inr []))
         (Handler (lit "/docs/sealed.pdf") None) (State sealed_fs [] [] []))
    = inl (Exn FileNotFoundError (lit "/docs/sealed.pdf")).
Proof.
  destruct (@validated_source_loads_if_readable (sample_env (inr []) (inr []))
              no_stat_fault (lit "/docs/sealed.pdf") (lit "/out")
              (State sealed_fs [] [] []) (State sealed_fs [] [] [])
              eq_refl eq_refl) as (Hinit & _ & Hload).
  split; [exact Hinit|].
  exact (proj1 (proj2 (Hload (State sealed_fs [] [] []) eq_refl) eq_refl)).
Defined.

(** ** The output directory *)

(** X26: [create_output_directory] raises what [self.pdf_path.stem]
    raises (the [AttributeError] of a path given as a [str]) before it
    touches the file system. With the stem and the joined path at hand it
    trusts whatever exists at the output path: if a file or a directory
    is there already it creates nothing and returns the path, a regular
    file included; when nothing is there it calls [mkdir], whose
    exception it passes on; and when the existence test fails it passes
    that error on without calling [mkdir]. *)
Theorem create_output_directory_outcomes
    (stat_fault : str -> option exn)
    (path_stem : str -> exn + str) (path_join : str -> str -> exn + str)
    (mkdir_parents : str -> M unit)
    (self : handler) (destination : str) (s : state) :
  (forall e,
     path_stem (pdf_path self) = inl e ->
     create_output_directory stat_fault path_stem path_join mkdir_parents
       self destination s = (inl e, s))
  /\
  (forall stem out,
     path_stem (pdf_path self) = inr stem ->
     path_join destination stem = inr out ->
     (fs s out <> Missing ->
      create_output_directory stat_fault path_stem path_join mkdir_parents
        self destination s = (inr out, traced s (IoStat out)))
     /\
     (fs s out = Missing -> stat_fault out = None ->
      create_output_directory stat_fault path_stem path_join mkdir_parents
        self destination s
      = match mkdir_parents out (traced s (IoStat out)) with
        | (inr _, s') => (inr out, s')
        | (inl e, s') => (inl e, s')
        end)
     /\
     (forall e,
        fs s out = Missing -> stat_fault out = Some e ->
        create_output_directory stat_fault path_stem path_join mkdir_parents
          self destination s = (inl e, traced s (IoStat out)))).
Proof.
  unfold create_output_directory, evaluated, path_exists, path_stat, bind,
    stat, ret, raise, traced.
  split.
  - intros e He. rewrite He. reflexivity.
  - intros stem out Hstem Hout. rewrite Hstem, Hout.
    split; [|split].
    + intros H. destruct (fs s out); congruence || reflexivity.
    + intros H Hq. rewrite H, Hq. cbn [negb].
      destruct (mkdir_parents _ _) as [[e|[]] s']; reflexivity.
    + intros e H Hq. rewrite H, Hq. reflexivity.
Qed.

Lemma create_output_directory_outcomes_witness :
  create_output_directory no_stat_fault
    (fun _ => inl (Exn AttributeError (lit "'str' object has no attribute 'stem'")))
    (fun d n => inr (d ++ lit "/" ++ n)) (fun _ => ret tt)
    sample_handler (lit "/out") sample_state
  = (inl (Exn AttributeError (lit "'str' object has no attribute 'stem'")),
     sample_state)
  /\
  (fs sample_state (lit "/docs/notes.txt") = File [104; 105]%N /\
   create_output_directory no_stat_fault (fun _ => inr (lit "notes.txt"))
     (fun d n => inr (d ++ lit "/" ++ n)) (fun _ => raise (Exn OtherException []))
     sample_handler (lit "/docs") sample_state
   = (inr (lit "/docs/notes.txt"),
      traced sample_state (IoStat (lit "/docs/notes.txt")))).
Proof.
  split.
  - exact (proj1 (@create_output_directory_outcomes no_stat_fault
             (fun _ => inl (Exn AttributeError
                              (lit "'str' object has no attribute 'stem'")))
             (fun d n => inr (d ++ lit "/" ++ n)) (fun _ => ret tt)
             sample_handler (lit "/out") sample_state) _ eq_refl).
  - split; [reflexivity|].
    refine (proj1 (proj2 (@create_output_directory_outcomes no_stat_fault
              (fun _ => inr (lit "notes.txt"))
              (fun d n => inr (d ++ lit "/" ++ n))
              (fun _ => raise (Exn OtherException []))
              sample_handler (lit "/docs") sample_state)
              (lit "notes.txt") (lit "/docs/notes.txt") eq_refl eq_refl) _).
    discriminate.
Defined.

Lemma validate_paths_only_looks_witness :
  fs (snd (validate_paths no_stat_fault (lit "/docs/notes.txt") (lit "/out")
             sample_state))
    = fs sample_state /\
  trace (snd (validate_paths no_stat_fault (lit "/docs/notes.txt") (lit "/out")
                sample_state))
    = trace sample_state ++ [IoStat (lit "/docs/notes.txt"); IoStat (lit "/docs/notes.txt")].
Proof.
  destruct (validate_paths_only_looks no_stat_fault (lit "/docs/notes.txt")
              (lit "/out") sample_state) as (Hfs & _ & _ & evs & Htr & _ & Hsrc).
  split; [exact Hfs | reflexivity].
Defined.

(** ** Image removal *)

Lemma clean_length : forall s p skip, List.length (clean p skip s) <= List.length s.
Proof.
  induction s as [|c s IH]; intros p skip.
  - unfold clean. cbn [sub_go]. destruct (match_at image_re false p []); cbn; lia.
  - destruct skip as [|n]; [|rewrite clean_skip; specialize (IH (S p) n); cbn; lia].
    destruct (image_here (c :: s)) eqn:Hi.
    + destruct (clean_drop p _ _ Hi) as [n ->]. specialize (IH (S p) n). cbn. lia.
    + rewrite (clean_keep p _ _ Hi). specialize (IH (S p) 0). cbn. lia.
Qed.

Lemma clean_without_image : forall s p, any_image s = false -> clean p 0 s = s.
Proof.
  induction s as [|c s IH]; intros p H; [reflexivity|].
  cbn [any_image] in H. apply orb_false_iff in H. destruct H as [Hi Hs].
  rewrite (clean_keep p _ _ Hi), (IH _ Hs). reflexivity.
Qed.

Lemma clean_with_image :
  forall s p, any_image s = true -> List.length (clean p 0 s) < List.length s.
Proof.
  induction s as [|c s IH]; intros p H; [discriminate|].
  destruct (image_here (c :: s)) eqn:Hi.
  - destruct (clean_drop p _ _ Hi) as [n ->].
    pose proof (clean_length s (S p) n). cbn. lia.
  - cbn [any_image] in H. rewrite Hi in H. cbn [orb] in H.
    rewrite (clean_keep p _ _ Hi). specialize (IH (S p) H). cbn. lia.
Qed.

(** X27: image removal changes a text exactly when the image pattern
    matches somewhere in it: without a match the text is returned as it
    is, with a match the result is shorter; it is never longer. *)
Theorem remove_images_changes_exactly_matching_text (s : str) :
  (has_image s = false -> _remove_images_from_markdown_content s = s) /\
  (has_image s = true ->
   List.length (_remove_images_from_markdown_content s) < List.length s) /\
  List.length (_remove_images_from_markdown_content s) <= List.length s.
Proof.
  unfold has_image, _remove_images_from_markdown_content, sub.
  rewrite search_image_scan. fold (clean 0 0 s).
  split; [apply clean_without_image|].
  split; [apply clean_with_image | apply clean_length].
Qed.

Lemma remove_images_changes_exactly_matching_text_witness :
  _remove_images_from_markdown_content (lit "no image: [link](url) and !bang")
    = lit "no image: [link](url) and !bang" /\
  List.length (_remove_images_from_markdown_content (lit "an ![image](url)"))
    < List.length (lit "an ![image](url)").
Proof.
  split.
  - exact (proj1 (remove_images_changes_exactly_matching_text
                    (lit "no image: [link](url) and !bang")) eq_refl).
  - exact (proj1 (proj2 (remove_images_changes_exactly_matching_text
                           (lit "an ![image](url)"))) eq_refl).
Defined.

(** X28: where no exclamation mark stands directly before an image
    reference, removing images twice is removing them once. *)
Theorem remove_images_idempotent_without_bang (s : str) :
  bang_before_image 0 s = false ->
  _remove_images_from_markdown_content (_remove_images_from_markdown_content s)
  = _remove_images_from_markdown_content s.
Proof.
  intros H. rewrite bang_before_image_scan in H.
  unfold _remove_images_from_markdown_content, sub. fold (clean 0 0 s).
  fold (clean 0 0 (clean 0 0 s)).
  apply clean_without_image. apply clean_no_image. exact H.
Qed.

Lemma remove_images_idempotent_without_bang_witness :
  _remove_images_from_markdown_content
    (_remove_images_from_markdown_content (lit "a ![x](y) b ![z](w) c"))
  = _remove_images_from_markdown_content (lit "a ![x](y) b ![z](w) c").
Proof.
  exact (@remove_images_idempotent_without_bang (lit "a ![x](y) b ![z](w) c")
           eq_refl).
Defined.

(** Matching and its continuation. *)
Lemma rep_ext gr x k1 k2 :
  (forall st, k1 st = k2 st) ->
  forall s lo p g, rep gr x lo k1 p g s = rep gr x lo k2 p g s.
Proof.
  intros Hk. induction s as [|c s IH]; intros lo p g; cbn [rep].
  - rewrite Hk. reflexivity.
  - rewrite Hk, IH. reflexivity.
Qed.

Lemma m_ext r :
  forall k1 k2, (forall st, k1 st = k2 st) -> forall st, m r k1 st = m r k2 st.
Proof.
  induction r; intros k1 k2 Hk st; cbn [m]; try (rewrite Hk; reflexivity).
  - destruct (rest st); [reflexivity|]. rewrite Hk. reflexivity.
  - apply rep_ext, Hk.
  - apply IHr1. intros st'. apply IHr2, Hk.
  - apply IHr. intros st'. apply Hk.
Qed.

Lemma option_map_orelse (f : mstate -> mstate) a b :
  option_map f (orelse a b) = orelse (option_map f a) (option_map f b).
Proof. destruct a; reflexivity. Qed.

Lemma rep_map gr x k (f : mstate -> mstate) :
  forall s lo p g,
    rep gr x lo (fun st => option_map f (k st)) p g s
    = option_map f (rep gr x lo k p g s).
Proof.
  induction s as [|c s IH]; intros lo p g; cbn [rep].
  - destruct lo; [|reflexivity]. destruct gr; rewrite option_map_orelse; reflexivity.
  - rewrite IH. destruct lo.
    + destruct gr; rewrite option_map_orelse; destruct (cls_match x c); reflexivity.
    + destruct (cls_match x c); reflexivity.
Qed.

Lemma m_map r (f : mstate -> mstate) :
  forall k st, m r (fun st' => option_map f (k st')) st = option_map f (m r k st).
Proof.
  induction r; intros k st; cbn [m]; try reflexivity.
  - destruct (rest st); [reflexivity|]. destruct (cls_match x c); reflexivity.
  - apply rep_map.
  - rewrite <- IHr1. apply m_ext. intros st'. apply IHr2.
  - apply (IHr (fun st' =>
             k (MState (pos st') (rest st')
                  ((n, firstn (pos st' - pos st) (rest st)) :: groups st')))).
  - destruct (Nat.eqb (pos st) 0); reflexivity.
  - destruct (rest st) as [|c [|d s]]; try reflexivity.
    destruct (N.eqb c NL); reflexivity.
Qed.

(** Matching does not depend on the position, short of [^]. *)
Lemma rep_shift gr x k d :
  forall s lo p g,
    rep gr x lo k (p + d) g s = rep gr x lo (fun st => k (shift d st)) p g s.
Proof.
  induction s as [|c s IH]; intros lo p g; cbn [rep]; [reflexivity|].
  change (S (p + d)) with (S p + d). rewrite IH. reflexivity.
Qed.

Lemma m_shift r d :
  bol_free r = true ->
  forall k st, m r k (shift d st) = m r (fun st' => k (shift d st')) st.
Proof.
  induction r; intros Hr k st; cbn [m shift pos rest groups]; try reflexivity.
  - apply rep_shift.
  - cbn [bol_free] in Hr. apply andb_true_iff in Hr. destruct Hr as [H1 H2].
    change (MState (pos st + d) (rest st) (groups st)) with (shift d st).
    rewrite (IHr1 H1). apply m_ext. intros st'. apply (IHr2 H2).
  - cbn [bol_free] in Hr.
    change (MState (pos st + d) (rest st) (groups st)) with (shift d st).
    rewrite (IHr Hr). apply m_ext. intros st'. cbn [shift pos rest groups].
    replace (pos st' + d - (pos st + d)) with (pos st' - pos st) by lia.
    reflexivity.
  - discriminate.
Qed.

Lemma match_at_shift r adv p d s :
  bol_free r = true ->
  match_at r adv (p + d) s = option_map (shift d) (match_at r adv p s).
Proof.
  intros Hr. unfold match_at.
  change (MState (p + d) s []) with (shift d (MState p s [])).
  rewrite (@m_shift r d Hr), <- m_map. apply m_ext. intros st'.
  cbn [shift pos].
  replace (Nat.eqb (pos st' + d) (p + d)) with (Nat.eqb (pos st') p).
  - destruct (adv && Nat.eqb (pos st') p); reflexivity.
  - destruct (Nat.eqb (pos st') p) eqn:H.
    + apply Nat.eqb_eq in H. symmetry. apply Nat.eqb_eq. lia.
    + apply Nat.eqb_neq in H. symmetry. apply Nat.eqb_neq. lia.
Qed.

(** Matching a line-local pattern does not depend on what follows the
    line. *)
Lemma rep_line gr x k y :
  cls_match x NL = false ->
  forall s lo p g,
    rep gr x lo k p g (s ++ NL :: y)
    = rep gr x lo (fun st => k (extend y st)) p g s.
Proof.
  intros Hx. induction s as [|c s IH]; intros lo p g; cbn [rep app].
  - rewrite Hx. reflexivity.
  - rewrite IH. reflexivity.
Qed.

Lemma m_line r y :
  line_local r = true ->
  forall k st, m r k (extend y st) = m r (fun st' => k (extend y st')) st.
Proof.
  induction r; intros Hr k st; cbn [m extend pos rest groups]; try reflexivity.
  - cbn [line_local] in Hr. apply negb_true_iff in Hr.
    destruct (rest st) as [|c s]; cbn [app]; [rewrite Hr|]; reflexivity.
  - cbn [line_local] in Hr. apply negb_true_iff in Hr. apply rep_line, Hr.
  - cbn [line_local] in Hr. apply andb_true_iff in Hr. destruct Hr as [H1 H2].
    change (MState (pos st) (rest st ++ NL :: y) (groups st)) with (extend y st).
    rewrite (IHr1 H1). apply m_ext. intros st'. apply (IHr2 H2).
  - discriminate.
  - discriminate.
Qed.

Lemma match_at_line r adv p x y :
  line_local r = true ->
  match_at r adv p (x ++ NL :: y) = option_map (extend y) (match_at r adv p x).
Proof.
  intros Hr. unfold match_at.
  change (MState p (x ++ NL :: y) []) with (extend y (MState p x [])).
  rewrite (@m_line r y Hr), <- m_map. apply m_ext. intros st'.
  cbn [extend pos]. destruct (adv && Nat.eqb (pos st') p); reflexivity.
Qed.

(** One step of the removal. *)
Lemma clean_step p c s :
  clean p 0 (c :: s) =
  match match_at image_re false p (c :: s) with
  | Some st => clean (S p) (pos st - p - 1) s
  | None => c :: clean (S p) 0 s
  end.
Proof.
  unfold clean. cbn [sub_go].
  destruct (match_at image_re false p (c :: s)) as [st|] eqn:Hm; [|reflexivity].
  apply image_match_advances in Hm.
  destruct (Nat.eqb (pos st) p) eqn:Hp; [apply Nat.eqb_eq in Hp; lia|].
  reflexivity.
Qed.

Lemma clean_shift : forall s p d skip, clean (p + d) skip s = clean p skip s.
Proof.
  induction s as [|c s IH]; intros p d skip.
  - unfold clean. cbn [sub_go].
    destruct (match_at image_re false (p + d) []);
      destruct (match_at image_re false p []); reflexivity.
  - destruct skip as [|n].
    + rewrite !clean_step, (@match_at_shift image_re false p d (c :: s) eq_refl).
      destruct (match_at image_re false p (c :: s)) as [st|]; cbn [option_map].
      * cbn [shift pos]. change (S (p + d)) with (S p + d). rewrite IH.
        f_equal. lia.
      * change (S (p + d)) with (S p + d). rewrite IH. reflexivity.
    + rewrite !clean_skip. change (S (p + d)) with (S p + d). apply IH.
Qed.

Lemma clean_line y :
  forall x p skip,
    skip <= List.length x ->
    clean p skip (x ++ NL :: y)
    = clean p skip x ++ NL :: clean (p + List.length x + 1) 0 y.
Proof.
  induction x as [|c x IH]; intros p skip Hskip; cbn [List.length] in Hskip.
  - assert (skip = 0) by lia. subst skip. cbn [app List.length].
    rewrite clean_step.
    change (match_at image_re false p (NL :: y))
      with (match_at image_re false p ([] ++ NL :: y)).
    rewrite (@match_at_line image_re false p [] y eq_refl).
    pose proof (image_match_scan p []) as Hs. cbn [image_here] in Hs.
    destruct (match_at image_re false p []); [discriminate|].
    cbn [option_map]. rewrite clean_nil. cbn [app].
    replace (p + 0 + 1) with (S p) by lia. reflexivity.
  - cbn [app]. destruct skip as [|n].
    + rewrite !clean_step.
      change (c :: x ++ NL :: y) with ((c :: x) ++ NL :: y).
      rewrite (@match_at_line image_re false p (c :: x) y eq_refl).
      destruct (match_at image_re false p (c :: x)) as [st|] eqn:Hm;
        cbn [option_map extend pos].
      * apply match_at_sound in Hm. destruct Hm as [Hm _].
        apply matches_span in Hm. destruct Hm as (w & Hw & Hp).
        cbn [rest pos] in Hw, Hp.
        assert (Hlen : List.length w <= S (List.length x)).
        { apply (f_equal (@List.length char)) in Hw.
          rewrite length_app in Hw. cbn [List.length] in Hw. lia. }
        rewrite IH by lia. cbn [List.length].
        replace (S p + List.length x + 1) with (p + S (List.length x) + 1) by lia.
        reflexivity.
      * rewrite IH by lia. cbn [app List.length].
        replace (S p + List.length x + 1) with (p + S (List.length x) + 1) by lia.
        reflexivity.
    + rewrite !clean_skip, IH by lia. cbn [List.length].
      replace (S p + List.length x + 1) with (p + S (List.length x) + 1) by lia.
      reflexivity.
Qed.

(** X29: image removal works line by line: removing images from two
    texts joined by a newline gives the two cleaned texts joined by a
    newline, so that nothing reaching over a newline is ever removed. *)
Theorem remove_images_distributes_over_newline (x y : str) :
  _remove_images_from_markdown_content (x ++ NL :: y)
  = _remove_images_from_markdown_content x
    ++ NL :: _remove_images_from_markdown_content y.
Proof.
  unfold _remove_images_from_markdown_content, sub.
  fold (clean 0 0 (x ++ NL :: y)). fold (clean 0 0 x). fold (clean 0 0 y).
  rewrite clean_line by lia.
  replace (0 + List.length x + 1) with (0 + (List.length x + 1)) by lia.
  rewrite clean_shift. reflexivity.
Qed.

(** X30: on a document whose Markdown holds no match of the image
    pattern, asking for cleaning makes no difference: the cleaned and the
    plain Markdown extraction end alike. *)
Theorem cleaning_changes_nothing_without_images
    (E : env) (self : handler) (md : str) (start end_ : option str) (s : state) :
  to_markdown E (pdf_path self) = inr md ->
  has_image md = false ->
  extract_markdown_content E self true start end_ s
  = extract_markdown_content E self false start end_ s.
Proof.
  intros Hmd Hno. unfold has_image in Hno. rewrite search_image_scan in Hno.
  erewrite !extract_markdown_content_select by eassumption.
  unfold processed, _remove_images_from_markdown_content, sub.
  fold (clean 0 0 md). rewrite (clean_without_image md 0 Hno). reflexivity.
Qed.

Lemma cleaning_changes_nothing_without_images_witness :
  extract_markdown_content (sample_text_env (lit "plain [link](url) text"))
    sample_handler true None None sample_state
  = extract_markdown_content (sample_text_env (lit "plain [link](url) text"))
      sample_handler false None None sample_state.
Proof.
  exact (@cleaning_changes_nothing_without_images
           (sample_text_env (lit "plain [link](url) text")) sample_handler
           (lit "plain [link](url) text") None None sample_state eq_refl eq_refl).
Defined.
